(** * express-mcp-playground: the streaming chat route and its client

    A shallow embedding of the two programs of the repository:

    - the route handler [POST] (app/api/express-mcp/route.ts), which validates
      the request, opens the provider stream and translates the provider's
      events into server-sent frames;
    - the reading loop of [handleSubmit] (src/app/page.tsx), which splits each
      read into lines, parses the frames and folds them into the assistant
      message and its list of tool calls.

    A JavaScript string is kept as the UTF-8 bytes of its text ([string]),
    and so are the bytes of a read; [TextDecoder_decode] is the decoding of
    the one into the other. Objects produced by [JSON.parse] are association
    lists in insertion order.

    The definitions come first: [Json] (the values and the parser behind
    [JSON.parse]), [Translator] (the loop of the route and the frames),
    [Client] (the reading loop), [Endpoint] (the handler around the loop) and
    [Trace] (what is observed of a run). The facts follow, module by
    module. *)

From Stdlib Require Import List String Ascii ZArith Lia Bool Arith.
From Stdlib Require Import Numbers.DecimalString Numbers.DecimalNat.
From Stdlib Require Lists.Finite.
Import ListNotations.

Local Open Scope nat_scope.
Local Open Scope list_scope.
Local Open Scope string_scope.
Set Warnings "-register-all".

(** ** Values of [JSON.parse] *)

Module Json.

(** A number is kept as the decimal its literal denotes, [mantissa * 10^exp10].
    Of the binary64 the engine rounds it to, the model has what the programs
    look at: whether it is zero ([reads_as_zero]). *)
Inductive JSON : Type :=
| JNull
| JBool (b : bool)
| JNumber (mantissa exp10 : Z)
| JString (s : string)
| JArray (items : list JSON)
| JObject (fields : list (string * JSON)).

(** The outcome of one parsing function: a value with the unread input, a
    syntax error, or the recursion bound reached. *)
Inductive Parse (A : Type) : Type :=
| Parsed (a : A)
| SyntaxError
| NoFuel.
Arguments Parsed {A} a.
Arguments SyntaxError {A}.
Arguments NoFuel {A}.

Definition quote : ascii := "034"%char.
Definition backslash : ascii := "092"%char.

(** [s] with every apostrophe turned into a double quote, to write JSON texts
    readably: [js "{'q':'x'}"] is the text [{"q":"x"}]. *)
Fixpoint js (s : string) : string :=
  match s with
  | EmptyString => EmptyString
  | String c r => String (if Ascii.eqb c "'" then quote else c) (js r)
  end.

Definition is_ws (c : ascii) : bool :=
  Ascii.eqb c " " || Ascii.eqb c "009" || Ascii.eqb c "010" || Ascii.eqb c "013".

Fixpoint skip_ws (s : list ascii) : list ascii :=
  match s with
  | c :: r => if is_ws c then skip_ws r else s
  | [] => []
  end.

Definition is_digit (c : ascii) : bool :=
  (48 <=? nat_of_ascii c)%nat && (nat_of_ascii c <=? 57)%nat.

Definition digit_val (c : ascii) : Z := Z.of_nat (nat_of_ascii c - 48).

(** The longest run of digits at the head of [s], and what follows it. *)
Fixpoint take_digits (s : list ascii) : list ascii * list ascii :=
  match s with
  | c :: r =>
      if is_digit c then let (ds, rest) := take_digits r in (c :: ds, rest)
      else ([], s)
  | [] => ([], [])
  end.

Definition digits_value (ds : list ascii) : Z :=
  fold_left (fun acc c => 10 * acc + digit_val c)%Z ds 0%Z.

(** number = [ "-" ] int [ "." 1*DIGIT ] [ ("e" / "E") [ "+" / "-" ] 1*DIGIT ],
    where int is "0" or a digit run that does not start with "0". *)
Definition parse_int_part (s : list ascii) : option (list ascii * list ascii) :=
  match s with
  | c :: r =>
      if Ascii.eqb c "0" then Some ([c], r)
      else if is_digit c then Some (take_digits s)
      else None
  | [] => None
  end.

Definition parse_frac_part (s : list ascii) : option (list ascii * list ascii) :=
  match s with
  | c :: r =>
      if Ascii.eqb c "." then
        match take_digits r with
        | ([], _) => None
        | (ds, rest) => Some (ds, rest)
        end
      else Some ([], s)
  | [] => Some ([], [])
  end.

Definition parse_exp_part (s : list ascii) : option (Z * list ascii) :=
  match s with
  | c :: r =>
      if Ascii.eqb c "e" || Ascii.eqb c "E" then
        let (neg, r') :=
          match r with
          | sg :: r1 =>
              if Ascii.eqb sg "-" then (true, r1)
              else if Ascii.eqb sg "+" then (false, r1)
              else (false, r)
          | [] => (false, r)
          end in
        match take_digits r' with
        | ([], _) => None
        | (ds, rest) =>
            Some ((if neg then - digits_value ds else digits_value ds)%Z, rest)
        end
      else Some (0%Z, s)
  | [] => Some (0%Z, [])
  end.

Definition number_after_sign (neg : bool) (s1 : list ascii)
  : Parse (JSON * list ascii) :=
  match parse_int_part s1 with
  | None => SyntaxError
  | Some (ip, s2) =>
      match parse_frac_part s2 with
      | None => SyntaxError
      | Some (fp, s3) =>
          match parse_exp_part s3 with
          | None => SyntaxError
          | Some (e, s4) =>
              let m := digits_value (ip ++ fp) in
              Parsed (JNumber (if neg then - m else m)%Z
                              (e - Z.of_nat (List.length fp))%Z, s4)
          end
      end
  end.

Definition parse_number (s : list ascii) : Parse (JSON * list ascii) :=
  match s with
  | c :: r =>
      if Ascii.eqb c "-" then number_after_sign true r
      else number_after_sign false s
  | [] => SyntaxError
  end.

Definition hex_val (c : ascii) : option nat :=
  let n := nat_of_ascii c in
  if (48 <=? n)%nat && (n <=? 57)%nat then Some (n - 48)
  else if (65 <=? n)%nat && (n <=? 70)%nat then Some (n - 55)
  else if (97 <=? n)%nat && (n <=? 102)%nat then Some (n - 87)
  else None.

(** The bytes kept for the code unit [n] of a [\uXXXX] escape: one byte below
    0x80, otherwise its UTF-8 style group of two or three bytes. *)
Definition code_unit_bytes (n : nat) : list ascii :=
  if (n <? 128)%nat then [ascii_of_nat n]
  else if (n <? 2048)%nat then
    [ascii_of_nat (192 + n / 64); ascii_of_nat (128 + n mod 64)]
  else
    [ascii_of_nat (224 + n / 4096); ascii_of_nat (128 + (n / 64) mod 64);
     ascii_of_nat (128 + n mod 64)].

(** The characters of a string literal after its opening quote, up to the
    closing quote; [acc] holds the characters read so far, last first. *)
Fixpoint string_body (s : list ascii) (acc : list ascii)
  : option (string * list ascii) :=
  match s with
  | [] => None
  | c :: r =>
      if Ascii.eqb c quote then Some (string_of_list_ascii (rev acc), r)
      else if Ascii.eqb c backslash then
        match r with
        | e :: r1 =>
            if Ascii.eqb e quote then string_body r1 (quote :: acc)
            else if Ascii.eqb e backslash then string_body r1 (backslash :: acc)
            else if Ascii.eqb e "/" then string_body r1 ("/"%char :: acc)
            else if Ascii.eqb e "b" then string_body r1 ("008"%char :: acc)
            else if Ascii.eqb e "f" then string_body r1 ("012"%char :: acc)
            else if Ascii.eqb e "n" then string_body r1 ("010"%char :: acc)
            else if Ascii.eqb e "r" then string_body r1 ("013"%char :: acc)
            else if Ascii.eqb e "t" then string_body r1 ("009"%char :: acc)
            else if Ascii.eqb e "u" then
              match r1 with
              | h1 :: h2 :: h3 :: h4 :: r2 =>
                  match hex_val h1, hex_val h2, hex_val h3, hex_val h4 with
                  | Some a, Some b, Some c', Some d =>
                      string_body r2
                        (rev (code_unit_bytes (((a * 16 + b) * 16 + c') * 16 + d))
                           ++ acc)
                  | _, _, _, _ => None
                  end
              | _ => None
              end
            else None
        | [] => None
        end
      else if (nat_of_ascii c <? 32)%nat then None
      else string_body r (c :: acc)
  end.

(** [obj[k] = v] on an object under construction: a repeated key keeps its
    place and takes the later value. *)
Fixpoint set_field (k : string) (v : JSON) (fs : list (string * JSON))
  : list (string * JSON) :=
  match fs with
  | [] => [(k, v)]
  | (k', v') :: r =>
      if String.eqb k k' then (k, v) :: r else (k', v') :: set_field k v r
  end.

Fixpoint starts_with (p s : list ascii) : option (list ascii) :=
  match p, s with
  | [], _ => Some s
  | a :: p', b :: s' => if Ascii.eqb a b then starts_with p' s' else None
  | _ :: _, [] => None
  end.

Section Composite.
Variable value : list ascii -> Parse (JSON * list ascii).

(** The elements of an array after its opening bracket, when it is not empty. *)
Fixpoint parse_elements (n : nat) (acc : list JSON) (s : list ascii)
  : Parse (JSON * list ascii) :=
  match n with
  | O => NoFuel
  | S n' =>
      match value s with
      | Parsed (v, r) =>
          match skip_ws r with
          | c :: r' =>
              if Ascii.eqb c "," then parse_elements n' (v :: acc) r'
              else if Ascii.eqb c "]" then Parsed (JArray (rev (v :: acc)), r')
              else SyntaxError
          | [] => SyntaxError
          end
      | SyntaxError => SyntaxError
      | NoFuel => NoFuel
      end
  end.

(** The members of an object after its opening brace, when it is not empty. *)
Fixpoint parse_members (n : nat) (acc : list (string * JSON)) (s : list ascii)
  : Parse (JSON * list ascii) :=
  match n with
  | O => NoFuel
  | S n' =>
      match skip_ws s with
      | q :: r =>
          if Ascii.eqb q quote then
            match string_body r [] with
            | Some (k, r1) =>
                match skip_ws r1 with
                | c :: r2 =>
                    if Ascii.eqb c ":" then
                      match value r2 with
                      | Parsed (v, r3) =>
                          match skip_ws r3 with
                          | d :: r4 =>
                              if Ascii.eqb d "," then
                                parse_members n' (set_field k v acc) r4
                              else if Ascii.eqb d "}" then
                                Parsed (JObject (set_field k v acc), r4)
                              else SyntaxError
                          | [] => SyntaxError
                          end
                      | SyntaxError => SyntaxError
                      | NoFuel => NoFuel
                      end
                    else SyntaxError
                | [] => SyntaxError
                end
            | None => SyntaxError
            end
          else SyntaxError
      | [] => SyntaxError
      end
  end.

End Composite.

Definition literal (word : string) (v : JSON) (s : list ascii)
  : Parse (JSON * list ascii) :=
  match starts_with (list_ascii_of_string word) s with
  | Some r => Parsed (v, r)
  | None => SyntaxError
  end.

(** One JSON value, leading white space skipped; [fuel] bounds the nesting. *)
Fixpoint parse_value (fuel : nat) (s : list ascii) : Parse (JSON * list ascii) :=
  match fuel with
  | O => NoFuel
  | S fuel' =>
      match skip_ws s with
      | [] => SyntaxError
      | c :: r =>
          if Ascii.eqb c "{" then
            match skip_ws r with
            | d :: r' =>
                if Ascii.eqb d "}" then Parsed (JObject [], r')
                else parse_members (parse_value fuel') (List.length r) [] r
            | [] => SyntaxError
            end
          else if Ascii.eqb c "[" then
            match skip_ws r with
            | d :: r' =>
                if Ascii.eqb d "]" then Parsed (JArray [], r')
                else parse_elements (parse_value fuel') (List.length r) [] r
            | [] => SyntaxError
            end
          else if Ascii.eqb c quote then
            match string_body r [] with
            | Some (str, r') => Parsed (JString str, r')
            | None => SyntaxError
            end
          else if Ascii.eqb c "t" then literal "true" (JBool true) (c :: r)
          else if Ascii.eqb c "f" then literal "false" (JBool false) (c :: r)
          else if Ascii.eqb c "n" then literal "null" JNull (c :: r)
          else parse_number (c :: r)
      end
  end.

(** [JSON.parse(text)]: [None] stands for the SyntaxError it throws. The
    text is one value, with white space allowed around it. *)
Definition JSON_parse (text : string) : option JSON :=
  let s := list_ascii_of_string text in
  match parse_value (S (List.length s)) s with
  | Parsed (v, r) => match skip_ws r with [] => Some v | _ :: _ => None end
  | _ => None
  end.

(** A parser that consumes input whenever it succeeds. *)
Definition consumes (value : list ascii -> Parse (JSON * list ascii)) : Prop :=
  forall s v r, value s = Parsed (v, r) -> List.length r < List.length s.

End Json.
Export Json.

(** ** The route handler: translating the provider's events *)

Module Translator.

(** The strings of [l] appended in order. *)
Definition concat_all (l : list string) : string :=
  fold_right String.append EmptyString l.

(** [event.content_block as { type: string; name?: string; id?: string }] *)
Record ContentBlock : Type := {
  block_type : string;
  block_name : option string;
  block_id : option string
}.

(** [event.delta as { type: string; text?: string; partial_json?: string }] *)
Record Delta : Type := {
  delta_type : string;
  delta_text : option string;
  delta_partial_json : option string
}.

(** The provider's events, by [event.type]; [other_event] carries the type of
    an event that is none of the four the loop looks at. *)
Inductive RawEvent : Type :=
| content_block_start (content_block : ContentBlock)
| content_block_delta (delta : Delta)
| content_block_stop
| message_stop
| other_event (type : string).

(** The objects the handler serialises into frames, by their [type] field. *)
Inductive DownstreamEvent : Type :=
| text (content : string)
| tool_start (name id : string)
| tool_complete (name id : string) (input : JSON)
| done
| error (message : string).

(** The three [let] variables of the loop. *)
Record ToolState : Type := {
  currentToolName : string;
  currentToolInput : string;
  currentToolId : string
}.

Definition initial : ToolState :=
  {| currentToolName := ""; currentToolInput := ""; currentToolId := "" |}.

(** An optional string used as a condition: present and not empty. *)
Definition truthy (o : option string) : bool :=
  match o with
  | Some s => negb (s =? "")
  | None => false
  end.

(** [o || d] for an optional string [o]. *)
Definition or_else (o : option string) (d : string) : string :=
  match o with
  | Some s => if s =? "" then d else s
  | None => d
  end.

(** The [try { JSON.parse(currentToolInput) } catch { ... }] of the handler. *)
Definition parsedInput (currentToolInput : string) : JSON :=
  match JSON_parse currentToolInput with
  | Some v => v
  | None =>
      if currentToolInput =? "" then JObject []
      else JObject [("raw", JString currentToolInput)]
  end.

(** One turn of the [for await] loop: the new variables and the objects
    enqueued during the turn. Under its guard, [or_else o ""] is the string
    the field [o] holds. *)
Definition step (st : ToolState) (event : RawEvent)
  : ToolState * list DownstreamEvent :=
  match event with
  | content_block_start block =>
      if ((block_type block =? "tool_use") || (block_type block =? "mcp_tool_use"))
         && truthy (block_name block)
      then
        let name := or_else (block_name block) "" in
        let id := or_else (block_id block) "" in
        ({| currentToolName := name; currentToolInput := ""; currentToolId := id |},
         [tool_start name id])
      else (st, [])
  | content_block_delta delta =>
      if (delta_type delta =? "text_delta") && truthy (delta_text delta) then
        (st, [text (or_else (delta_text delta) "")])
      else if (delta_type delta =? "input_json_delta")
              && truthy (delta_partial_json delta) then
        ({| currentToolName := currentToolName st;
            currentToolInput :=
              currentToolInput st ++ or_else (delta_partial_json delta) "";
            currentToolId := currentToolId st |}, [])
      else (st, [])
  | content_block_stop =>
      if negb (currentToolName st =? "") then
        (initial,
         [tool_complete (currentToolName st) (currentToolId st)
            (parsedInput (currentToolInput st))])
      else (st, [])
  | message_stop => (st, [done])
  | other_event _ => (st, [])
  end.

(** The loop over the events the provider yields, from the state [st]. *)
Fixpoint run (st : ToolState) (events : list RawEvent)
  : ToolState * list DownstreamEvent :=
  match events with
  | [] => (st, [])
  | event :: rest =>
      let (st1, out1) := step st event in
      let (st2, out2) := run st1 rest in
      (st2, (out1 ++ out2)%list)
  end.

(** What a whole event sequence makes the handler enqueue. *)
Definition translate (events : list RawEvent) : list DownstreamEvent :=
  snd (run initial events).

Definition state_after (events : list RawEvent) : ToolState :=
  fst (run initial events).

(** What the event [event] makes the handler enqueue when it arrives after
    [events]. *)
Definition emitted_at (events : list RawEvent) (event : RawEvent)
  : list DownstreamEvent :=
  snd (step (state_after events) event).

(** A value caught by [catch (error)]: an [Error] with its message, or
    anything else. *)
Inductive Thrown : Type :=
| ErrorInstance (message : string)
| NotAnError.

(** [error instanceof Error ? error.message : 'Unknown error'] *)
Definition error_text (e : Thrown) : string :=
  match e with
  | ErrorInstance m => m
  | NotAnError => "Unknown error"
  end.

(** How the provider's iterator ends: it is exhausted, or it throws. *)
Inductive StreamEnd : Type :=
| Exhausted
| Throws (e : Thrown).

(** The provider's stream as the loop sees it: the events it yields, then its
    end. A call to [client.messages.stream] that throws at once is the stream
    with no event that [Throws]. *)
Record RawStream : Type := {
  events : list RawEvent;
  ending : StreamEnd
}.

(** The [ReadableStream] controller: what was enqueued, and whether [close]
    was called. *)
Record Controller : Type := {
  enqueued : list DownstreamEvent;
  closed : bool
}.

(** The [start(controller)] callback: the loop inside its [try], then
    [controller.close()]; the [catch] enqueues one error object and closes. *)
Definition start (upstream : RawStream) : Controller :=
  let out := translate (events upstream) in
  match ending upstream with
  | Exhausted => {| enqueued := out; closed := true |}
  | Throws e => {| enqueued := (out ++ [error (error_text e)])%list; closed := true |}
  end.

(** The object literal given to [JSON.stringify] for each event. *)
Definition payload (ev : DownstreamEvent) : JSON :=
  match ev with
  | text content =>
      JObject [("type", JString "text"); ("content", JString content)]
  | tool_start name id =>
      JObject [("type", JString "tool_start"); ("name", JString name);
               ("id", JString id)]
  | tool_complete name id input =>
      JObject [("type", JString "tool_complete"); ("name", JString name);
               ("id", JString id); ("input", input)]
  | done => JObject [("type", JString "done")]
  | error message =>
      JObject [("type", JString "error"); ("error", JString message)]
  end.

Definition newline : string := String "010" EmptyString.

(** [`data: ${json}\n\n`] *)
Definition frame (json : string) : string :=
  "data: " ++ json ++ newline ++ newline.

(** [JSON.stringify]: the text of a value, with no white space. *)

Definition hex_digit (n : nat) : ascii :=
  if (n <? 10)%nat then ascii_of_nat (48 + n) else ascii_of_nat (87 + n).

Definition escape_char (c : ascii) : string :=
  if Ascii.eqb c quote then String backslash (String quote EmptyString)
  else if Ascii.eqb c backslash then String backslash (String backslash EmptyString)
  else if Ascii.eqb c "008" then "\b"
  else if Ascii.eqb c "012" then "\f"
  else if Ascii.eqb c "010" then "\n"
  else if Ascii.eqb c "013" then "\r"
  else if Ascii.eqb c "009" then "\t"
  else if (nat_of_ascii c <? 32)%nat then
    "\u00" ++ String (hex_digit (nat_of_ascii c / 16))
                (String (hex_digit (nat_of_ascii c mod 16)) EmptyString)
  else String c EmptyString.

Fixpoint escape (s : string) : string :=
  match s with
  | EmptyString => EmptyString
  | String c r => escape_char c ++ escape r
  end.

Definition quote_string (s : string) : string :=
  String quote (escape s ++ String quote EmptyString).

Section Stringify.

(** How the engine prints the number [mantissa * 10^exp10]; the frames the
    handler builds from strings alone never reach it. *)
Variable number_text : Z -> Z -> string.

Fixpoint JSON_stringify (v : JSON) : string :=
  match v with
  | JNull => "null"
  | JBool true => "true"
  | JBool false => "false"
  | JNumber m e => number_text m e
  | JString str => quote_string str
  | JArray items =>
      "[" ++ (fix list_text (l : list JSON) : string :=
                match l with
                | [] => EmptyString
                | x :: r =>
                    JSON_stringify x
                    ++ match r with [] => EmptyString | _ :: _ => "," ++ list_text r end
                end) items ++ "]"
  | JObject fields =>
      "{" ++ (fix members_text (l : list (string * JSON)) : string :=
                match l with
                | [] => EmptyString
                | (k, x) :: r =>
                    quote_string k ++ ":" ++ JSON_stringify x
                    ++ match r with [] => EmptyString | _ :: _ => "," ++ members_text r end
                end) fields ++ "}"
  end.

(** The bytes of one [controller.enqueue(encoder.encode(data))]. *)
Definition encode (ev : DownstreamEvent) : string :=
  frame (JSON_stringify (payload ev)).

(** The response body: the frames one after the other. *)
Definition body_bytes (out : list DownstreamEvent) : string :=
  concat_all (map encode out).

End Stringify.

End Translator.
Export Translator.

(** ** The reading loop of the page *)

Module Client.

(** [chunk.split('\n')] *)
Fixpoint split_lines (chunk : string) : list string :=
  match chunk with
  | EmptyString => [EmptyString]
  | String c rest =>
      if Ascii.eqb c "010" then EmptyString :: split_lines rest
      else
        match split_lines rest with
        | line :: lines => String c line :: lines
        | [] => [String c EmptyString]
        end
  end.

(** [line.slice(n)] for [n] within the line or past its end. *)
Fixpoint slice (n : nat) (line : string) : string :=
  match n, line with
  | O, _ => line
  | S n', String _ rest => slice n' rest
  | S _, EmptyString => EmptyString
  end.

(** The [data] of a line: the value parsed from what follows the prefix.
    [None] is a line without the prefix, or one whose [JSON.parse] throws
    into the empty [catch]. *)
Definition decode_line (line : string) : option JSON :=
  if String.prefix "data: " line then JSON_parse (slice 6 line) else None.

(** The values the text [chunk] of one read yields, in the order of its
    lines. *)
Definition decode_chunk (chunk : string) : list JSON :=
  flat_map (fun line => match decode_line line with
                        | Some data => [data]
                        | None => []
                        end) (split_lines chunk).

(** The values the texts of a run of reads yield: each is split and parsed on
    its own, nothing is carried from one read to the next. *)
Definition decode_reads (chunks : list string) : list JSON :=
  flat_map decode_chunk chunks.

(** *** From the bytes of a read to its text

    [decoder.decode(value)] for the [new TextDecoder()] of the page: UTF-8,
    not fatal, the byte order mark not ignored. It is called without
    [stream], so every read is decoded from the start: a byte order mark at
    the head of the read is dropped, and a sequence cut by the end of the
    read is replaced. The decoder is the one of the Encoding standard, with
    the text it returns written as UTF-8 again: a well-formed sequence is
    kept as it is, and U+FFFD stands where the decoder reports an error. *)

(** The string of the bytes [l]. *)
Definition bytes (l : list nat) : string :=
  string_of_list_ascii (map ascii_of_nat l).

Definition BOM : string := String "239" (String "187" (String "191" EmptyString)).

(** U+FFFD *)
Definition replacement : string :=
  String "239" (String "191" (String "189" EmptyString)).

(** The bounds on the next byte of a sequence: 80..BF, or what the first
    byte E0, ED, F0 or F4 narrows them to for the second. *)
Inductive Range : Type :=
| continuation
| after_E0
| after_ED
| after_F0
| after_F4.

Definition in_range (r : Range) (b : nat) : bool :=
  match r with
  | continuation => (128 <=? b)%nat && (b <=? 191)%nat
  | after_E0 => (160 <=? b)%nat && (b <=? 191)%nat
  | after_ED => (128 <=? b)%nat && (b <=? 159)%nat
  | after_F0 => (144 <=? b)%nat && (b <=? 191)%nat
  | after_F4 => (128 <=? b)%nat && (b <=? 143)%nat
  end.

Definition range_after (b : nat) : Range :=
  if (b =? 224)%nat then after_E0
  else if (b =? 237)%nat then after_ED
  else if (b =? 240)%nat then after_F0
  else if (b =? 244)%nat then after_F4
  else continuation.

(** The decoder between two bytes: no sequence is open, or one is, with the
    bytes [seen] of it, [more] bytes needed after the next one, and the
    bounds on the next one. *)
Inductive Decoder : Type :=
| idle
| within (seen : string) (more : nat) (next : Range).

(** A byte met with no sequence open: what is written, and the decoder
    after it. *)
Definition first_byte (c : ascii) : string * Decoder :=
  let b := nat_of_ascii c in
  if (b <=? 127)%nat then (String c EmptyString, idle)
  else if (194 <=? b)%nat && (b <=? 223)%nat then
    (EmptyString, within (String c EmptyString) 0 continuation)
  else if (224 <=? b)%nat && (b <=? 239)%nat then
    (EmptyString, within (String c EmptyString) 1 (range_after b))
  else if (240 <=? b)%nat && (b <=? 244)%nat then
    (EmptyString, within (String c EmptyString) 2 (range_after b))
  else (replacement, idle).

(** One byte. A byte out of the bounds ends the open sequence with an error
    and is then read again with no sequence open. *)
Definition decode_byte (d : Decoder) (c : ascii) : string * Decoder :=
  match d with
  | idle => first_byte c
  | within seen more next =>
      if in_range next (nat_of_ascii c) then
        match more with
        | O => (seen ++ String c EmptyString, idle)
        | S more' => (EmptyString, within (seen ++ String c EmptyString) more' continuation)
        end
      else let (out, d') := first_byte c in (replacement ++ out, d')
  end.

(** The bytes to their end, where an open sequence is an error. *)
Fixpoint decode_bytes (d : Decoder) (bytes : string) : string :=
  match bytes with
  | EmptyString => match d with idle => EmptyString | within _ _ _ => replacement end
  | String c rest => let (out, d') := decode_byte d c in out ++ decode_bytes d' rest
  end.

Definition without_BOM (value : string) : string :=
  if String.prefix BOM value then slice 3 value else value.

Definition TextDecoder_decode (value : string) : string :=
  decode_bytes idle (without_BOM value).

(** Well-formed UTF-8, by the table of the Unicode standard: the bytes of a
    text. *)
Fixpoint utf8 (s : string) : bool :=
  match s with
  | EmptyString => true
  | String c0 r0 =>
      let b := nat_of_ascii c0 in
      if (b <=? 127)%nat then utf8 r0
      else if (194 <=? b)%nat && (b <=? 223)%nat then
        match r0 with
        | String c1 r1 => in_range continuation (nat_of_ascii c1) && utf8 r1
        | _ => false
        end
      else if (224 <=? b)%nat && (b <=? 239)%nat then
        match r0 with
        | String c1 (String c2 r2) =>
            in_range (range_after b) (nat_of_ascii c1)
            && in_range continuation (nat_of_ascii c2) && utf8 r2
        | _ => false
        end
      else if (240 <=? b)%nat && (b <=? 244)%nat then
        match r0 with
        | String c1 (String c2 (String c3 r3)) =>
            in_range (range_after b) (nat_of_ascii c1)
            && in_range continuation (nat_of_ascii c2)
            && in_range continuation (nat_of_ascii c3) && utf8 r3
        | _ => false
        end
      else false
  end.

(** The body of the [while] loop for the bytes [value] of one read. *)
Definition decode_value (value : string) : list JSON :=
  decode_chunk (TextDecoder_decode value).

(** The values a run of reads yields: each read is decoded, split and parsed
    on its own, nothing is carried from one read to the next. *)
Definition decode_values (values : list string) : list JSON :=
  flat_map decode_value values.

Fixpoint field (k : string) (fs : list (string * JSON)) : option JSON :=
  match fs with
  | [] => None
  | (k', v) :: r => if String.eqb k k' then Some v else field k r
  end.

Definition string_field (k : string) (fs : list (string * JSON)) : option string :=
  match field k fs with
  | Some (JString str) => Some str
  | _ => None
  end.

(** The frame a parsed [data] is, read through the fields the loop uses. A
    missing [id] reads as the empty string, which every test of [data.id]
    treats alike. Values that are no frame of the route ([None]) are outside
    the model; the loop is not run on them. *)
Definition event_of_data (data : JSON) : option DownstreamEvent :=
  match data with
  | JObject fs =>
      match string_field "type" fs with
      | Some ty =>
          if ty =? "text" then option_map text (string_field "content" fs)
          else if ty =? "tool_start" then
            match string_field "name" fs with
            | Some name =>
                Some (tool_start name (or_else (string_field "id" fs) ""))
            | None => None
            end
          else if ty =? "tool_complete" then
            match string_field "name" fs, field "input" fs with
            | Some name, Some input =>
                Some (tool_complete name (or_else (string_field "id" fs) "") input)
            | _, _ => None
            end
          else if ty =? "done" then Some done
          else if ty =? "error" then option_map error (string_field "error" fs)
          else None
      | None => None
      end
  | _ => None
  end.

Fixpoint somes {A : Type} (l : list (option A)) : list A :=
  match l with
  | [] => []
  | Some a :: r => a :: somes r
  | None :: r => somes r
  end.

(** The frames the texts of a run of reads hand to the message update. *)
Definition decode_events (chunks : list string) : list DownstreamEvent :=
  somes (map event_of_data (decode_reads chunks)).

(** The frames a run of reads hands to the message update. *)
Definition decode_frames (values : list string) : list DownstreamEvent :=
  somes (map event_of_data (decode_values values)).

Inductive Status : Type := running | complete.

(** [interface ToolCall] *)
Record ToolCall : Type := {
  tc_name : string;
  tc_id : option string;
  tc_input : option JSON;
  tc_status : Status
}.

(** The assistant message given to [setMessages] after [...newMessages]. *)
Record AssistantMessage : Type := {
  content : string;
  toolCalls : option (list ToolCall)
}.

(** The two locals of the loop and the assistant message last displayed. *)
Record Reading : Type := {
  currentContent : string;
  currentToolCalls : list ToolCall;
  shown : AssistantMessage
}.

Definition reading_start : Reading :=
  {| currentContent := ""; currentToolCalls := [];
     shown := {| content := ""; toolCalls := Some [] |} |}.

(** [`${n}`] for a length. *)
Definition decimal (n : nat) : string := NilEmpty.string_of_uint (Nat.to_uint n).

Definition status_eqb (a b : Status) : bool :=
  match a, b with
  | running, running | complete, complete => true
  | _, _ => false
  end.

(** The two tests of the [map] callback of [tool_complete], in order. *)
Definition matches (name id : string) (tc : ToolCall) : bool :=
  if negb (id =? "") then
    match tc_id tc with Some i => i =? id | None => false end
  else (tc_name tc =? name) && status_eqb (tc_status tc) running.

Definition completed (input : JSON) (tc : ToolCall) : ToolCall :=
  {| tc_name := tc_name tc; tc_id := tc_id tc; tc_input := Some input;
     tc_status := complete |}.

Definition show (cc : string) (tcs : list ToolCall) : Reading :=
  {| currentContent := cc; currentToolCalls := tcs;
     shown := {| content := cc; toolCalls := Some tcs |} |}.

(** The body of the [try] for one parsed frame. *)
Definition handle (st : Reading) (data : DownstreamEvent) : Reading :=
  match data with
  | text c => show (currentContent st ++ c) (currentToolCalls st)
  | tool_start name id =>
      let toolId :=
        if negb (id =? "") then id
        else "tool-" ++ decimal (List.length (currentToolCalls st)) in
      show (currentContent st)
           (currentToolCalls st ++
              [{| tc_name := name; tc_id := Some toolId; tc_input := None;
                  tc_status := running |}])%list
  | tool_complete name id input =>
      show (currentContent st)
           (map (fun tc => if matches name id tc then completed input tc else tc)
                (currentToolCalls st))
  | error message =>
      {| currentContent := currentContent st;
         currentToolCalls := currentToolCalls st;
         shown := {| content := "Error: " ++ message; toolCalls := None |} |}
  | done => st
  end.

(** The loop over the frames of a response, from the empty assistant message. *)
Definition project (frames : list DownstreamEvent) : Reading :=
  fold_left handle frames reading_start.

End Client.
Export Client.

(** ** The endpoint *)

Module Endpoint.

(** A computation that returns or throws. *)
Inductive Exc (A : Type) : Type :=
| Returns (a : A)
| Raises (e : Thrown).
Arguments Returns {A} a.
Arguments Raises {A} e.

Definition bind {A B : Type} (c : Exc A) (k : A -> Exc B) : Exc B :=
  match c with
  | Returns a => k a
  | Raises e => Raises e
  end.

Notation "x <- c ;; k" := (bind c (fun x => k))
  (at level 61, c at next level, right associativity).

Definition DEFAULT_MCP_URL : string :=
  "https://penumbra--express-mcp-mcp-server.modal.run/mcp".

(** The TypeErrors the engine itself throws in the handler. *)
Inductive TypeFault : Type :=
| destructure_null
| map_not_a_function
| property_of_null.

(** Whether the number [m * 10^e] is read as zero: the binary64 nearest to
    it (ties to even) is [0] or [-0] exactly when its magnitude is at most
    2^-1075, half of the least positive binary64. So [0], [-0], [0.0] and
    [1e-400] all read as zero, and [5e-324] does not. *)
Definition reads_as_zero (m e : Z) : bool :=
  (m =? 0)%Z || ((e <? 0)%Z && (Z.abs m * 2 ^ 1075 <=? 10 ^ (- e))%Z).

(** A value used as a condition; [None] is [undefined]. *)
Definition falsy (v : option JSON) : bool :=
  match v with
  | None => true
  | Some JNull => true
  | Some (JBool b) => negb b
  | Some (JNumber m e) => reads_as_zero m e
  | Some (JString str) => str =? ""
  | Some (JArray _) => false
  | Some (JObject _) => false
  end.

(** [messages.length === 0] for a value that is not falsy. *)
Definition length_is_zero (messages : option JSON) : bool :=
  match messages with
  | Some (JArray items) => match items with [] => true | _ :: _ => false end
  | Some (JString str) => str =? ""
  | Some (JObject fs) =>
      match field "length" fs with
      | Some (JNumber m e) => reads_as_zero m e
      | _ => false
      end
  | _ => false
  end.

(** [{ role: msg.role, content: msg.content }] *)
Record AnthropicMessage : Type := {
  role : option JSON;
  message_content : option JSON
}.

(** The request given to [client.messages.stream]: the messages and the url
    of the one MCP server. *)
Record UpstreamRequest : Type := {
  messages : list AnthropicMessage;
  mcp_url : JSON
}.

(** What the handler is run against: the outcome of [request.json()], of
    [new Anthropic(...)], and the stream the provider answers a request with. *)
Record World : Type := {
  request_json : Exc JSON;
  new_Anthropic : Exc unit;
  messages_stream : UpstreamRequest -> RawStream
}.

(** A response: [Response.json(body, { status })], or the stream response,
    given with all that its [start] callback enqueues. *)
Inductive Response : Type :=
| JsonResponse (status : nat) (body : JSON)
| StreamResponse (status : nat) (headers : list (string * string))
                 (stream : Controller).

(** Where the outer [try] gets to before it returns: the 400 branch, or
    everything needed to build the stream. *)
Inductive Setup : Type :=
| Rejected
| Accepted (request : UpstreamRequest).

Section Handler.

(** The message of each TypeError of the engine. *)
Variable TypeError_message : TypeFault -> string.

Definition TypeError (f : TypeFault) : Thrown :=
  ErrorInstance (TypeError_message f).

(** [obj.k] for a key that no string or array has. *)
Definition property (k : string) (obj : JSON) : Exc (option JSON) :=
  match obj with
  | JNull => Raises (TypeError property_of_null)
  | JObject fs => Returns (field k fs)
  | _ => Returns None
  end.

(** [const { messages, mcpUrl } = body] *)
Definition destructure (body : JSON) : Exc (option JSON * option JSON) :=
  match body with
  | JNull => Raises (TypeError destructure_null)
  | JObject fs => Returns (field "messages" fs, field "mcpUrl" fs)
  | _ => Returns (None, None)
  end.

(** [items.map(msg => ({ role: msg.role, content: msg.content }))] *)
Fixpoint convert (items : list JSON) : Exc (list AnthropicMessage) :=
  match items with
  | [] => Returns []
  | msg :: rest =>
      r <- property "role" msg ;;
      c <- property "content" msg ;;
      l <- convert rest ;;
      Returns ({| role := r; message_content := c |} :: l)
  end.

(** [messages.map(...)]: only an array has [map]. *)
Definition map_messages (messages : option JSON) : Exc (list AnthropicMessage) :=
  match messages with
  | Some (JArray items) => convert items
  | _ => Raises (TypeError map_not_a_function)
  end.

(** The outer [try] up to the construction of the stream. *)
Definition setup (w : World) : Exc Setup :=
  body <- request_json w ;;
  fields <- destructure body ;;
  let (messages, mcpUrl) := fields in
  if falsy messages || length_is_zero messages then Returns Rejected
  else
    let finalMcpUrl :=
      match mcpUrl with
      | Some url => if falsy mcpUrl then JString DEFAULT_MCP_URL else url
      | None => JString DEFAULT_MCP_URL
      end in
    _ <- new_Anthropic w ;;
    anthropicMessages <- map_messages messages ;;
    Returns (Accepted {| messages := anthropicMessages; mcp_url := finalMcpUrl |}).

Definition error_body (message : string) : JSON :=
  JObject [("error", JString message)].

Definition stream_headers : list (string * string) :=
  [("Content-Type", "text/event-stream"); ("Cache-Control", "no-cache");
   ("Connection", "keep-alive")].

(** [POST]: the response, and the requests made to the provider. *)
Definition POST (w : World) : Response * list UpstreamRequest :=
  match setup w with
  | Returns Rejected => (JsonResponse 400 (error_body "Messages are required"), [])
  | Returns (Accepted request) =>
      (StreamResponse 200 stream_headers (start (messages_stream w request)),
       [request])
  | Raises e => (JsonResponse 500 (error_body (error_text e)), [])
  end.

End Handler.

End Endpoint.
Export Endpoint.

(** ** Observations on a run *)

Module Trace.

(** The condition under which [content_block_start] opens a tool call. *)
Definition opens_tool (block : ContentBlock) : bool :=
  ((block_type block =? "tool_use") || (block_type block =? "mcp_tool_use"))
  && truthy (block_name block).

(** The text fragment an event carries: the [text] of a delta of type
    [text_delta], the empty string when the field is absent. *)
Definition text_fragment (event : RawEvent) : option string :=
  match event with
  | content_block_delta d =>
      if delta_type d =? "text_delta" then
        Some (match delta_text d with Some t => t | None => "" end)
      else None
  | _ => None
  end.

Definition text_fragments (events : list RawEvent) : list string :=
  somes (map text_fragment events).

(** The JSON fragment an event carries, likewise. *)
Definition json_fragment (event : RawEvent) : option string :=
  match event with
  | content_block_delta d =>
      if delta_type d =? "input_json_delta" then
        Some (match delta_partial_json d with Some t => t | None => "" end)
      else None
  | _ => None
  end.

Definition json_fragments (events : list RawEvent) : list string :=
  somes (map json_fragment events).

Definition text_content (ev : DownstreamEvent) : option string :=
  match ev with
  | text c => Some c
  | _ => None
  end.

(** The [content] of the text events of [out], in order. *)
Definition text_contents (out : list DownstreamEvent) : list string :=
  somes (map text_content out).

Definition nonempty (str : string) : bool := negb (str =? "").

Definition text_nonempty (ev : DownstreamEvent) : Prop :=
  match ev with
  | text c => c <> ""
  | _ => True
  end.

Definition is_error (ev : DownstreamEvent) : bool :=
  match ev with
  | error _ => true
  | _ => false
  end.

Definition is_message_stop (event : RawEvent) : bool :=
  match event with
  | message_stop => true
  | _ => false
  end.

(** An event that neither opens nor closes a tool call. *)
Definition within_block (event : RawEvent) : bool :=
  match event with
  | content_block_start block => negb (opens_tool block)
  | content_block_stop => false
  | _ => true
  end.

(** Reading [out] from its start, whether the id [i] is open after [ev]:
    a [tool_start] with the id opens it, a [tool_complete] with the id
    closes it. *)
Definition mark (i : string) (flag : bool) (ev : DownstreamEvent) : bool :=
  match ev with
  | tool_start _ j => if j =? i then true else flag
  | tool_complete _ j _ => if j =? i then false else flag
  | _ => flag
  end.

(** A [tool_start] with the id [i] is in [out] and no [tool_complete] with
    that id follows it (lemma [open_id_true] below). *)
Definition open_id (i : string) (out : list DownstreamEvent) : bool :=
  fold_left (mark i) out false.

(** The provider's contract: no tool call opens while one is open. [open]
    tells whether one is open before [events]. *)
Fixpoint one_at_a_time (open : bool) (events : list RawEvent) : bool :=
  match events with
  | [] => true
  | content_block_start block :: rest =>
      if opens_tool block then negb open && one_at_a_time true rest
      else one_at_a_time open rest
  | content_block_stop :: rest => one_at_a_time false rest
  | _ :: rest => one_at_a_time open rest
  end.

(** A [content_block_stop] after [events] emits a [tool_complete] with the id
    [i] exactly when [i] is open in what was emitted before. *)
Definition complete_iff_open (events : list RawEvent) : Prop :=
  forall i,
    (exists name input,
        In (tool_complete name i input) (emitted_at events content_block_stop))
    <-> open_id i (translate events) = true.

(** Nothing follows a [done] in [out]. *)
Definition done_is_last (out : list DownstreamEvent) : Prop :=
  forall pre post, out = (pre ++ done :: post)%list -> post = [].

(** The state holds an open tool call only if its id is open in the output. *)
Definition state_is_open_in (st : ToolState) (out : list DownstreamEvent) : Prop :=
  currentToolName st <> "" -> open_id (currentToolId st) out = true.

(** Under the provider's contract the converse holds too: the ids open in
    the output are the id of the open tool call, if there is one. *)
Definition tracks (open : bool) (st : ToolState) (out : list DownstreamEvent) : Prop :=
  open = negb (currentToolName st =? "")
  /\ forall i, open_id i out = true <-> open = true /\ currentToolId st = i.

End Trace.
Export Trace.

(** ** Further observations on the translation *)

Module Pairing.

(** A raw event that opens a tool call. *)
Definition opens (event : RawEvent) : bool :=
  match event with
  | content_block_start block => opens_tool block
  | _ => false
  end.

Definition is_tool_start (ev : DownstreamEvent) : bool :=
  match ev with
  | tool_start _ _ => true
  | _ => false
  end.

Definition is_done (ev : DownstreamEvent) : bool :=
  match ev with
  | done => true
  | _ => false
  end.

Definition starts_id (i : string) (ev : DownstreamEvent) : bool :=
  match ev with
  | tool_start _ j => j =? i
  | _ => false
  end.

Definition completes_id (i : string) (ev : DownstreamEvent) : bool :=
  match ev with
  | tool_complete _ j _ => j =? i
  | _ => false
  end.

(** The tool call the state holds, if any. *)
Definition held (st : ToolState) : option (string * string) :=
  if currentToolName st =? "" then None
  else Some (currentToolName st, currentToolId st).

(** Reading [out] with the tool call [open] pending: every [tool_complete]
    closes the pending tool call and has its name and id; a [tool_start]
    makes its own tool call the pending one; text, done and error events
    leave the pending tool call alone. *)
Fixpoint paired (open : option (string * string)) (out : list DownstreamEvent)
  : bool :=
  match out with
  | [] => true
  | tool_start name id :: rest => paired (Some (name, id)) rest
  | tool_complete name id _ :: rest =>
      match open with
      | Some (name', id') => (name' =? name) && (id' =? id) && paired None rest
      | None => false
      end
  | _ :: rest => paired open rest
  end.

(** The pending tool call after [out] has been read. *)
Fixpoint pending (open : option (string * string)) (out : list DownstreamEvent)
  : option (string * string) :=
  match out with
  | [] => open
  | tool_start name id :: rest => pending (Some (name, id)) rest
  | tool_complete _ _ _ :: rest => pending None rest
  | _ :: rest => pending open rest
  end.

(** A raw event the loop passes over: an event of another type, a
    [content_block_start] that opens no tool call, a delta that is neither a
    text delta with text nor a JSON delta with JSON text. *)
Definition passed_over (event : RawEvent) : bool :=
  match event with
  | content_block_start block => negb (opens_tool block)
  | content_block_delta d =>
      negb ((delta_type d =? "text_delta") && truthy (delta_text d))
      && negb ((delta_type d =? "input_json_delta")
               && truthy (delta_partial_json d))
  | content_block_stop => false
  | message_stop => false
  | other_event _ => true
  end.

End Pairing.
Export Pairing.

(** ** Further observations on the endpoint *)

Module Answers.

(** [obj.k] for a value that is not [null]. *)
Definition prop (k : string) (obj : JSON) : option JSON :=
  match obj with
  | JObject fs => field k fs
  | _ => None
  end.

Definition is_null (v : JSON) : bool :=
  match v with
  | JNull => true
  | _ => false
  end.

(** The message sent to the provider for an element of [messages]. *)
Definition message_of (msg : JSON) : AnthropicMessage :=
  {| role := prop "role" msg; message_content := prop "content" msg |}.

(** [mcpUrl || DEFAULT_MCP_URL] *)
Definition final_url (mcpUrl : option JSON) : JSON :=
  match mcpUrl with
  | Some url => if falsy mcpUrl then JString DEFAULT_MCP_URL else url
  | None => JString DEFAULT_MCP_URL
  end.

Definition status_of (r : Response) : nat :=
  match r with
  | JsonResponse status _ => status
  | StreamResponse status _ _ => status
  end.

End Answers.
Export Answers.

(** ** Further observations on the reading loop *)

Module Entries.

Definition start_name (ev : DownstreamEvent) : option string :=
  match ev with
  | tool_start name _ => Some name
  | _ => None
  end.

(** The names of the [tool_start] frames of [frames], in order. *)
Definition start_names (frames : list DownstreamEvent) : list string :=
  somes (map start_name frames).

(** An entry as the loop keeps them: it has an id that is not empty, and it
    is running exactly when it has no input. *)
Definition entry_ok (tc : ToolCall) : bool :=
  match tc_id tc with
  | Some i => negb (i =? "")
  | None => false
  end
  && match tc_status tc, tc_input tc with
     | running, None => true
     | complete, Some _ => true
     | _, _ => false
     end.

(** The message shown mirrors the two locals. *)
Definition mirrors (st : Reading) : Prop :=
  shown st = {| content := currentContent st;
                toolCalls := Some (currentToolCalls st) |}.

End Entries.
Export Entries.

(** ** Values that are written and read back unchanged *)

Module Wire.

Fixpoint distinct (keys : list string) : bool :=
  match keys with
  | [] => true
  | k :: rest => negb (existsb (String.eqb k) rest) && distinct rest
  end.

(** A value with no number in it and no key twice in an object. *)
Fixpoint printable (v : JSON) : bool :=
  match v with
  | JNull => true
  | JBool _ => true
  | JNumber _ _ => false
  | JString _ => true
  | JArray items => forallb printable items
  | JObject fs =>
      distinct (map fst fs) && forallb (fun kv => printable (snd kv)) fs
  end.

(** A frame whose input, if it has one, is [printable]. *)
Definition event_printable (ev : DownstreamEvent) : bool :=
  match ev with
  | tool_complete _ _ input => printable input
  | _ => true
  end.

Fixpoint has_newline (s : string) : bool :=
  match s with
  | EmptyString => false
  | String c rest => Ascii.eqb c "010" || has_newline rest
  end.

Section Texts.
Variable number_text : Z -> Z -> string.

(** The text between the brackets of an array. *)
Fixpoint items_text (l : list JSON) : string :=
  match l with
  | [] => EmptyString
  | x :: r =>
      JSON_stringify number_text x
      ++ match r with [] => EmptyString | _ :: _ => "," ++ items_text r end
  end.

(** The text between the braces of an object. *)
Fixpoint members_text (l : list (string * JSON)) : string :=
  match l with
  | [] => EmptyString
  | (k, x) :: r =>
      quote_string k ++ ":" ++ JSON_stringify number_text x
      ++ match r with [] => EmptyString | _ :: _ => "," ++ members_text r end
  end.

(** [value] reads back the text of [x], whatever follows it. *)
Definition reads_back (value : list ascii -> Parse (JSON * list ascii))
           (x : JSON) : Prop :=
  forall rest,
    value (list_ascii_of_string (JSON_stringify number_text x) ++ rest)%list
    = Parsed (x, rest).

End Texts.

Section Induction.
Variable P : JSON -> Prop.
Hypothesis P_null : P JNull.
Hypothesis P_bool : forall b, P (JBool b).
Hypothesis P_number : forall m e, P (JNumber m e).
Hypothesis P_string : forall s, P (JString s).
Hypothesis P_array : forall items, Forall P items -> P (JArray items).
Hypothesis P_object :
  forall fs, Forall (fun kv => P (snd kv)) fs -> P (JObject fs).

(** Induction on a value, with the property known of the elements of an array
    and of the values of an object. *)
Fixpoint JSON_induction (v : JSON) : P v :=
  match v with
  | JNull => P_null
  | JBool b => P_bool b
  | JNumber m e => P_number m e
  | JString s => P_string s
  | JArray items =>
      P_array items
        ((fix all (l : list JSON) : Forall P l :=
            match l with
            | [] => Forall_nil P
            | x :: r => Forall_cons x (JSON_induction x) (all r)
            end) items)
  | JObject fs =>
      P_object fs
        ((fix all (l : list (string * JSON)) : Forall (fun kv => P (snd kv)) l :=
            match l with
            | [] => Forall_nil _
            | kv :: r => Forall_cons kv (JSON_induction (snd kv)) (all r)
            end) fs)
  end.

End Induction.

(** A value whose strings and keys are all well-formed UTF-8. *)
Fixpoint utf8_value (v : JSON) : bool :=
  match v with
  | JString s => utf8 s
  | JArray items => forallb utf8_value items
  | JObject fs => forallb (fun kv => utf8 (fst kv) && utf8_value (snd kv)) fs
  | _ => true
  end.

(** A frame whose strings are all well-formed UTF-8. *)
Definition event_utf8 (ev : DownstreamEvent) : bool :=
  match ev with
  | text c => utf8 c
  | tool_start name id => utf8 name && utf8 id
  | tool_complete name id input => utf8 name && utf8 id && utf8_value input
  | done => true
  | error message => utf8 message
  end.
End Wire.
Export Wire.

(** ** The expanded pills of the page *)

Module Pills.

(** A [Set<string>]: its elements in insertion order, each once. *)
Definition StringSet : Type := list string.

Definition set_has (key : string) (s : StringSet) : bool :=
  existsb (String.eqb key) s.

Definition set_delete (key : string) (s : StringSet) : StringSet :=
  filter (fun k => negb (k =? key)) s.

Definition set_add (key : string) (s : StringSet) : StringSet :=
  if set_has key s then s else (s ++ [key])%list.

(** The update [toggleToolExpanded] gives to [setExpandedTools]: on a copy of
    the previous set, the key is deleted if it is there and added if not. *)
Definition toggleToolExpanded (toolKey : string) (prev : StringSet) : StringSet :=
  let next := prev in
  if set_has toolKey next then set_delete toolKey next
  else set_add toolKey next.

(** [`${messageIndex}-${toolIndex}`] *)
Definition toolKey (messageIndex toolIndex : nat) : string :=
  decimal messageIndex ++ "-" ++ decimal toolIndex.

Fixpoint has_dash (s : string) : bool :=
  match s with
  | EmptyString => false
  | String c rest => Ascii.eqb c "-" || has_dash rest
  end.

End Pills.
Export Pills.

(** ** The markdown renderer of the page *)

Module Markdown.

(** The inline nodes of a line: [<span key>text</span>] and
    [<strong key>text</strong>]. *)
Inductive Part : Type :=
| span (key content : string)
| strong (key content : string).

(** The children of a paragraph or of a list item: the inline nodes, or the
    bare string of the fallback. *)
Inductive Children : Type :=
| nodes (parts : list Part)
| bare (content : string).

(** The element pushed for a line, with its [key]. *)
Inductive Element : Type :=
| h2 (key : nat) (content : string)
| h1 (key : nat) (content : string)
| list_item (key : nat) (children : Children)
| spacer (key : nat)
| paragraph (key : nat) (children : Children).

(** Whether [.] refuses the character at the head of [s]: there is none, or
    it is a line terminator (LF, CR, U+2028, U+2029; the last two are the
    bytes E2 80 A8 and E2 80 A9). *)
Definition dot_refuses (s : string) : bool :=
  match s with
  | EmptyString => true
  | String c r =>
      Ascii.eqb c "010" || Ascii.eqb c "013"
      || (Ascii.eqb c "226"
          && match r with
             | String c2 (String c3 _) =>
                 Ascii.eqb c2 "128" && (Ascii.eqb c3 "168" || Ascii.eqb c3 "169")
             | _ => false
             end)
  end.

(** What follows two stars at the head of [s]. *)
Definition after_stars (s : string) : option string :=
  match s with
  | String a (String b rest) =>
      if Ascii.eqb a "*" && Ascii.eqb b "*" then Some rest else None
  | _ => None
  end.

(** The rest of the lazy group [(.+?)] once its first character is taken:
    it stops at the first two stars, and takes one more character
    otherwise. The result is the rest of the group and what follows the
    closing stars. *)
Fixpoint lazy_group (s : string) : option (string * string) :=
  match after_stars s with
  | Some rest => Some (EmptyString, rest)
  | None =>
      match s with
      | String c r =>
          if dot_refuses s then None
          else match lazy_group r with
               | Some (group, rest) => Some (String c group, rest)
               | None => None
               end
      | EmptyString => None
      end
  end.

(** A match of [/\*\*(.+?)\*\*/] at the head of [s]: the group and what
    follows the match. *)
Definition match_here (s : string) : option (string * string) :=
  match after_stars s with
  | Some (String c r) =>
      if dot_refuses (String c r) then None
      else match lazy_group r with
           | Some (group, rest) => Some (String c group, rest)
           | None => None
           end
  | _ => None
  end.

(** [remaining.match(/\*\*(.+?)\*\*/)]: the leftmost match, as what precedes
    it ([remaining.slice(0, index)]), its group ([boldMatch[1]]) and what
    follows it ([remaining.slice(index + boldMatch[0].length)]). *)
Fixpoint bold_match (s : string) : option (string * string * string) :=
  match match_here s with
  | Some (group, rest) => Some (EmptyString, group, rest)
  | None =>
      match s with
      | String c r =>
          match bold_match r with
          | Some (before, group, rest) => Some (String c before, group, rest)
          | None => None
          end
      | EmptyString => None
      end
  end.

(** [.] accepts every character of [group] when [tail] follows it. *)
Fixpoint dot_accepts (group tail : string) : bool :=
  match group with
  | EmptyString => true
  | String c r => negb (dot_refuses (String c (r ++ tail))) && dot_accepts r tail
  end.

(** [`${lineIndex}-${partIndex}`] *)
Definition part_key (lineIndex partIndex : nat) : string :=
  decimal lineIndex ++ "-" ++ decimal partIndex.

(** The [while (remaining.length > 0)] loop; [fuel] bounds its turns. *)
Fixpoint inline_parts (fuel lineIndex partIndex : nat) (remaining : string)
  : list Part :=
  match fuel with
  | O => []
  | S fuel' =>
      if remaining =? "" then []
      else
        match bold_match remaining with
        | Some (before, group, rest) =>
            if before =? "" then
              strong (part_key lineIndex partIndex) group
              :: inline_parts fuel' lineIndex (S partIndex) rest
            else
              span (part_key lineIndex partIndex) before
              :: strong (part_key lineIndex (S partIndex)) group
              :: inline_parts fuel' lineIndex (S (S partIndex)) rest
        | None => [span (part_key lineIndex partIndex) remaining]
        end
  end.

(** [line.trim() === '']: the line is made of white space and line
    terminators only (in bytes: 09-0D, 20, C2 A0, E1 9A 80, E2 80 80-8A,
    E2 80 A8, E2 80 A9, E2 80 AF, E2 81 9F, E3 80 80, EF BB BF). *)
Fixpoint blank (s : string) : bool :=
  match s with
  | EmptyString => true
  | String c r =>
      let n := nat_of_ascii c in
      if ((9 <=? n)%nat && (n <=? 13)%nat) || (n =? 32)%nat then blank r
      else
        match r with
        | String c2 r2 =>
            let n2 := nat_of_ascii c2 in
            if (n =? 194)%nat && (n2 =? 160)%nat then blank r2
            else
              match r2 with
              | String c3 r3 =>
                  let n3 := nat_of_ascii c3 in
                  if ((n =? 225)%nat && (n2 =? 154)%nat && (n3 =? 128)%nat)
                     || ((n =? 226)%nat && (n2 =? 128)%nat
                         && (((128 <=? n3)%nat && (n3 <=? 138)%nat)
                             || (n3 =? 168)%nat || (n3 =? 169)%nat
                             || (n3 =? 175)%nat))
                     || ((n =? 226)%nat && (n2 =? 129)%nat && (n3 =? 159)%nat)
                     || ((n =? 227)%nat && (n2 =? 128)%nat && (n3 =? 128)%nat)
                     || ((n =? 239)%nat && (n2 =? 187)%nat && (n3 =? 191)%nat)
                  then blank r3
                  else false
              | EmptyString => false
              end
        | EmptyString => false
        end
  end.

(** [parts.length > 0 ? parts : fallback] *)
Definition children_of (parts : list Part) (fallback : string) : Children :=
  match parts with
  | [] => bare fallback
  | _ :: _ => nodes parts
  end.

(** The callback of [lines.forEach]: the element pushed for a line. *)
Definition render_line (lineIndex : nat) (line : string) : Element :=
  if String.prefix "## " line then h2 lineIndex (slice 3 line)
  else if String.prefix "# " line then h1 lineIndex (slice 2 line)
  else
    let parts := inline_parts (S (String.length line)) lineIndex 0 line in
    if String.prefix "- " line then
      list_item lineIndex (children_of parts (slice 2 line))
    else if blank line then spacer lineIndex
    else paragraph lineIndex (children_of parts line).

Fixpoint render_lines (lineIndex : nat) (lines : list string) : list Element :=
  match lines with
  | [] => []
  | line :: rest => render_line lineIndex line :: render_lines (S lineIndex) rest
  end.

(** [renderMarkdown]: [None] is the [null] returned for an empty text. *)
Definition renderMarkdown (text : string) : option (list Element) :=
  if text =? "" then None else Some (render_lines 0 (split_lines text)).

(** The text a node was made from. *)
Definition part_source (p : Part) : string :=
  match p with
  | span _ content => content
  | strong _ content => "**" ++ content ++ "**"
  end.

Definition part_key_of (p : Part) : string :=
  match p with
  | span key _ => key
  | strong key _ => key
  end.

Definition element_key (el : Element) : nat :=
  match el with
  | h2 key _ | h1 key _ | list_item key _ | spacer key | paragraph key _ => key
  end.

(** The line an element was made from; a spacer keeps none of its line. *)
Definition element_source (el : Element) : option string :=
  match el with
  | h2 _ content => Some ("## " ++ content)
  | h1 _ content => Some ("# " ++ content)
  | list_item _ (nodes parts) | paragraph _ (nodes parts) =>
      Some (concat_all (map part_source parts))
  | list_item _ (bare content) => Some ("- " ++ content)
  | paragraph _ (bare content) => Some content
  | spacer _ => None
  end.

(** An element whose children are inline nodes, never the bare fallback. *)
Definition no_fallback (el : Element) : bool :=
  match el with
  | list_item _ (bare _) | paragraph _ (bare _) => false
  | _ => true
  end.

(** How an element stands to its line: it has the line's index as its key,
    its source is the line, and a spacer stands for a blank line. *)
Definition renders (lineIndex : nat) (line : string) (el : Element) : Prop :=
  element_key el = lineIndex
  /\ no_fallback el = true
  /\ match element_source el with
     | Some source => source = line
     | None => blank line = true
     end.

End Markdown.
Export Markdown.

(** ** The submit handler of the page *)

Module Page.

(** [interface Message], by its role. *)
Inductive PageMessage : Type :=
| user_message (content : string)
| assistant_message (message : AssistantMessage).

(** The state of the component that [handleSubmit] reads and sets. *)
Record PageState : Type := {
  page_messages : list PageMessage;
  page_input : string;
  isLoading : bool
}.

(** What the body of the response gives the loop: the texts of the chunks
    read, as decoded, and whether [reader.read()] then throws instead of
    reporting the end. *)
Record Body : Type := {
  reads : list string;
  read_throws : bool
}.

(** The outcome of [fetch]: it throws, or it resolves to a response with its
    [ok] flag and its body, if it has one. *)
Inductive Fetched : Type :=
| fetch_throws
| fetch_response (ok : bool) (body : option Body).

Definition apology : AssistantMessage :=
  {| content := "Sorry, something went wrong. Please try again.";
     toolCalls := None |}.

(** The reading loop over the chunks of a body: the assistant message last
    given to [setMessages], the empty placeholder if none was. *)
Definition read_all (chunks : list string) : AssistantMessage :=
  shown (project (decode_events chunks)).

Section Submit.

(** [String.prototype.trim] *)
Variable trim : string -> string.

(** [[...messages, userMessage]] *)
Definition newMessages (st : PageState) : list PageMessage :=
  (page_messages st ++ [user_message (trim (page_input st))])%list.

(** The state [handleSubmit] leaves when it returns, for the outcome
    [fetched] of its request. *)
Definition handleSubmit (st : PageState) (fetched : Fetched) : PageState :=
  if (trim (page_input st) =? "") || isLoading st then st
  else
    let answer :=
      match fetched with
      | fetch_response true (Some body) =>
          if read_throws body then apology else read_all (reads body)
      | _ => apology
      end in
    {| page_messages := (newMessages st ++ [assistant_message answer])%list;
       page_input := "";
       isLoading := false |}.

End Submit.

Definition status_json (s : Status) : JSON :=
  match s with
  | running => JString "running"
  | complete => JString "complete"
  end.

(** The object [JSON.stringify] sees for a tool call; a field that is not
    set is left out. *)
Definition toolcall_json (tc : ToolCall) : JSON :=
  JObject
    ([("name", JString (tc_name tc))]
     ++ match tc_id tc with Some i => [("id", JString i)] | None => [] end
     ++ [("status", status_json (tc_status tc))]
     ++ match tc_input tc with Some v => [("input", v)] | None => [] end)%list.

(** The object [JSON.stringify] sees for a message. *)
Definition message_json (m : PageMessage) : JSON :=
  match m with
  | user_message c => JObject [("role", JString "user"); ("content", JString c)]
  | assistant_message a =>
      JObject
        ([("role", JString "assistant"); ("content", JString (content a))]
         ++ match toolCalls a with
            | Some tcs => [("toolCalls", JArray (map toolcall_json tcs))]
            | None => []
            end)%list
  end.

(** [{ messages: newMessages }], the body of the request. *)
Definition request_body (messages : list PageMessage) : JSON :=
  JObject [("messages", JArray (map message_json messages))].

(** The role and the content the route forwards for a message. *)
Definition forwarded (m : PageMessage) : AnthropicMessage :=
  match m with
  | user_message c =>
      {| role := Some (JString "user"); message_content := Some (JString c) |}
  | assistant_message a =>
      {| role := Some (JString "assistant");
         message_content := Some (JString (content a)) |}
  end.

(** The request the route makes to the provider for the conversation of the
    page, sent without [mcpUrl]. *)
Definition asked (trim : string -> string) (st : PageState) : UpstreamRequest :=
  {| messages := map forwarded (newMessages trim st);
     mcp_url := JString DEFAULT_MCP_URL |}.

(** What [fetch] resolves to for a response of the route whose body arrives
    as [chunks] and is read to its end; [ok] is a status from 200 to 299. *)
Definition fetched_of (r : Response) (chunks : list string) : Fetched :=
  fetch_response ((200 <=? status_of r)%nat && (status_of r <=? 299)%nat)
    (Some {| reads := chunks; read_throws := false |}).

(** A first message of a conversation, and a world in which the provider
    answers it with one text delta. *)
Definition hello_state : PageState :=
  {| page_messages := []; page_input := "hello"; isLoading := false |}.

Definition hello_world (ending : StreamEnd) : World :=
  {| request_json := Returns (request_body (newMessages (fun s => s) hello_state));
     new_Anthropic := Returns tt;
     messages_stream := fun _ =>
       {| events :=
            [content_block_delta
               {| delta_type := "text_delta"; delta_text := Some "Hi";
                  delta_partial_json := None |}];
          ending := ending |} |}.

End Page.
Export Page.

(** ** Facts about strings and lists used below *)

Ltac case_if :=
  match goal with
  | |- context [if ?c then _ else _] => destruct c eqn:?
  end.

Lemma append_empty_r (s : string) : s ++ "" = s.
Proof. induction s as [|c s IH]; simpl; [reflexivity | now rewrite IH]. Qed.

Lemma append_assoc (a b c : string) : (a ++ b) ++ c = a ++ (b ++ c).
Proof. induction a as [|x a IH]; simpl; [reflexivity | now rewrite IH]. Qed.

Lemma concat_all_app (l1 l2 : list string) :
  concat_all (l1 ++ l2) = concat_all l1 ++ concat_all l2.
Proof.
  induction l1 as [|x l1 IH]; simpl; [reflexivity|].
  now rewrite IH, append_assoc.
Qed.

Lemma somes_app {A : Type} (l1 l2 : list (option A)) :
  somes (l1 ++ l2) = (somes l1 ++ somes l2)%list.
Proof.
  induction l1 as [|[a|] l1 IH]; simpl; [reflexivity | now rewrite IH | exact IH].
Qed.

Lemma concat_all_nonempty (l : list string) :
  concat_all (filter nonempty l) = concat_all l.
Proof.
  induction l as [|x l IH]; simpl; [reflexivity|].
  unfold nonempty at 1. destruct (String.eqb_spec x "") as [->|_]; simpl.
  - exact IH.
  - now rewrite IH.
Qed.

Lemma truthy_or_else (o : option string) :
  truthy o = true -> o = Some (or_else o "") /\ or_else o "" <> "".
Proof.
  destruct o as [s|]; simpl; [|discriminate].
  destruct (String.eqb_spec s "") as [->|Hne]; simpl; [discriminate|].
  intros _. split; [reflexivity | exact Hne].
Qed.

Lemma not_truthy (o : option string) :
  truthy o = false <-> o = None \/ o = Some "".
Proof.
  destruct o as [s|]; simpl.
  - destruct (String.eqb_spec s "") as [->|Hne]; simpl; split; intros H; auto.
    + discriminate.
    + destruct H as [H|H]; [discriminate | injection H as ->; now elim Hne].
  - split; auto.
Qed.


(** ** The parser: the recursion bound is never reached *)

Module JsonFacts.

Lemma skip_ws_length (s : list ascii) :
  List.length (skip_ws s) <= List.length s.
Proof.
  induction s as [|c s IH]; simpl; [lia|]. destruct (is_ws c); simpl; lia.
Qed.

Lemma skip_ws_cons (s r : list ascii) (c : ascii) :
  skip_ws s = c :: r -> List.length r < List.length s.
Proof.
  intros H. pose proof (skip_ws_length s) as Hl. rewrite H in Hl. simpl in Hl. lia.
Qed.

Lemma take_digits_length (s ds r : list ascii) :
  take_digits s = (ds, r) -> List.length s = List.length ds + List.length r.
Proof.
  revert ds r. induction s as [|c s IH]; intros ds r; simpl.
  - intros [= <- <-]. reflexivity.
  - destruct (is_digit c).
    + destruct (take_digits s) as [ds' r'] eqn:E. intros [= <- <-].
      simpl. rewrite (IH ds' r' eq_refl). reflexivity.
    + intros [= <- <-]. reflexivity.
Qed.

Lemma parse_int_part_length (s ip r : list ascii) :
  parse_int_part s = Some (ip, r) -> List.length r < List.length s.
Proof.
  destruct s as [|c s]; simpl; [discriminate|].
  destruct (Ascii.eqb c "0"); [intros [= <- <-]; simpl; lia|].
  destruct (is_digit c); [|discriminate].
  destruct (take_digits s) as [ds' r'] eqn:E. intros [= <- <-].
  apply take_digits_length in E. simpl. lia.
Qed.

Lemma parse_frac_part_length (s fp r : list ascii) :
  parse_frac_part s = Some (fp, r) -> List.length r <= List.length s.
Proof.
  destruct s as [|c s]; simpl; [intros [= <- <-]; simpl; lia|].
  destruct (Ascii.eqb c ".").
  - destruct (take_digits s) as [ds' r'] eqn:E.
    apply take_digits_length in E.
    destruct ds'; [discriminate|]. intros [= <- <-]. simpl in *. lia.
  - intros [= <- <-]. simpl. lia.
Qed.

Lemma parse_exp_part_length (s r : list ascii) (e : Z) :
  parse_exp_part s = Some (e, r) -> List.length r <= List.length s.
Proof.
  destruct s as [|c s]; simpl; [intros [= <- <-]; simpl; lia|].
  destruct (Ascii.eqb c "e" || Ascii.eqb c "E").
  - destruct s as [|sg s1]; simpl.
    + discriminate.
    + destruct (Ascii.eqb sg "-"); [|destruct (Ascii.eqb sg "+")].
      * destruct (take_digits s1) as [ds' r'] eqn:E. apply take_digits_length in E.
        destruct ds'; [discriminate|]. intros [= <- <-]. simpl in *. lia.
      * destruct (take_digits s1) as [ds' r'] eqn:E. apply take_digits_length in E.
        destruct ds'; [discriminate|]. intros [= <- <-]. simpl in *. lia.
      * destruct (take_digits (sg :: s1)) as [ds' r'] eqn:E.
        apply take_digits_length in E.
        destruct ds'; [discriminate|]. intros [= <- <-]. simpl in *. lia.
  - intros [= <- <-]. simpl. lia.
Qed.

Lemma number_after_sign_length (neg : bool) (s r : list ascii) (v : JSON) :
  number_after_sign neg s = Parsed (v, r) -> List.length r < List.length s.
Proof.
  unfold number_after_sign.
  destruct (parse_int_part s) as [[ip s2]|] eqn:E1; [|discriminate].
  destruct (parse_frac_part s2) as [[fp s3]|] eqn:E2; [|discriminate].
  destruct (parse_exp_part s3) as [[e s4]|] eqn:E3; [|discriminate].
  intros [= _ <-].
  apply parse_int_part_length in E1. apply parse_frac_part_length in E2.
  apply parse_exp_part_length in E3. lia.
Qed.

Lemma parse_number_length (s r : list ascii) (v : JSON) :
  parse_number s = Parsed (v, r) -> List.length r < List.length s.
Proof.
  destruct s as [|c s]; simpl; [discriminate|].
  destruct (Ascii.eqb c "-"); intros H; apply number_after_sign_length in H;
    simpl in *; lia.
Qed.

Lemma string_body_length (n : nat) :
  forall s acc k r,
    List.length s <= n ->
    string_body s acc = Some (k, r) -> List.length r < List.length s.
Proof.
  induction n as [|n IH]; intros s acc k r Hn.
  - destruct s; [discriminate | simpl in Hn; lia].
  - destruct s as [|c s]; [discriminate|]. simpl in Hn. simpl.
    destruct (Ascii.eqb c quote); [intros [= _ <-]; simpl; lia|].
    destruct (Ascii.eqb c backslash).
    + destruct s as [|e r1]; [discriminate|]. simpl in Hn.
      assert (Hr1 : forall acc', string_body r1 acc' = Some (k, r) ->
                                 List.length r < S (S (List.length r1))).
      { intros acc' H. apply IH in H; lia. }
      repeat (case_if; [apply Hr1|]).
      case_if; [|discriminate].
      destruct r1 as [|h1 [|h2 [|h3 [|h4 r2]]]]; try discriminate.
      destruct (hex_val h1), (hex_val h2), (hex_val h3), (hex_val h4);
        try discriminate.
      intros H. apply IH in H; simpl in *; lia.
    + destruct (nat_of_ascii c <? 32)%nat; [discriminate|].
      intros H. apply IH in H; simpl; lia.
Qed.

Lemma starts_with_length (p s r : list ascii) :
  starts_with p s = Some r -> List.length s = List.length p + List.length r.
Proof.
  revert s. induction p as [|a p IH]; intros s; simpl.
  - now intros [= ->].
  - destruct s as [|b s]; [discriminate|].
    destruct (Ascii.eqb a b); [|discriminate].
    intros H. apply IH in H. simpl. lia.
Qed.

Lemma literal_length (word : string) (v v' : JSON) (s r : list ascii) :
  word <> "" -> literal word v s = Parsed (v', r) -> List.length r < List.length s.
Proof.
  unfold literal. intros Hw.
  destruct (starts_with (list_ascii_of_string word) s) as [r'|] eqn:E; [|discriminate].
  intros [= _ <-]. apply starts_with_length in E.
  destruct word; [now elim Hw | simpl in E; lia].
Qed.

Lemma parse_elements_length (value : list ascii -> Parse (JSON * list ascii)) :
  consumes value -> forall n acc, consumes (parse_elements value n acc).
Proof.
  intros Hv n. induction n as [|n IH]; intros acc s v r; simpl; [discriminate|].
  destruct (value s) as [[v1 r1]| |] eqn:E; try discriminate.
  apply Hv in E.
  destruct (skip_ws r1) as [|c r'] eqn:Ews; [discriminate|].
  apply skip_ws_cons in Ews.
  destruct (Ascii.eqb c ",").
  - intros H. apply IH in H. lia.
  - destruct (Ascii.eqb c "]"); [|discriminate]. intros [= _ <-]. lia.
Qed.

Lemma parse_members_length (value : list ascii -> Parse (JSON * list ascii)) :
  consumes value -> forall n acc, consumes (parse_members value n acc).
Proof.
  intros Hv n. induction n as [|n IH]; intros acc s v r; simpl; [discriminate|].
  destruct (skip_ws s) as [|q r0] eqn:E0; [discriminate|].
  apply skip_ws_cons in E0.
  destruct (Ascii.eqb q quote); [|discriminate].
  destruct (string_body r0 []) as [[k r1]|] eqn:E1; [|discriminate].
  apply (string_body_length _ _ _ _ _ (le_n _)) in E1.
  destruct (skip_ws r1) as [|c r2] eqn:E2; [discriminate|].
  apply skip_ws_cons in E2.
  destruct (Ascii.eqb c ":"); [|discriminate].
  destruct (value r2) as [[v3 r3]| |] eqn:E3; try discriminate.
  apply Hv in E3.
  destruct (skip_ws r3) as [|d r4] eqn:E4; [discriminate|].
  apply skip_ws_cons in E4.
  destruct (Ascii.eqb d ",").
  - intros H. apply IH in H. lia.
  - destruct (Ascii.eqb d "}"); [|discriminate]. intros [= _ <-]. lia.
Qed.

Lemma parse_value_length (fuel : nat) : consumes (parse_value fuel).
Proof.
  induction fuel as [|fuel IH]; intros s v r; simpl; [discriminate|].
  destruct (skip_ws s) as [|c r0] eqn:E0; [discriminate|].
  pose proof (skip_ws_length s) as Hs. rewrite E0 in Hs. simpl in Hs.
  destruct (Ascii.eqb c "{").
  { destruct (skip_ws r0) as [|d r1] eqn:E1; [discriminate|].
    apply skip_ws_cons in E1. destruct (Ascii.eqb d "}").
    - intros [= _ <-]. lia.
    - intros H. apply (parse_members_length _ IH) in H. lia. }
  destruct (Ascii.eqb c "[").
  { destruct (skip_ws r0) as [|d r1] eqn:E1; [discriminate|].
    apply skip_ws_cons in E1. destruct (Ascii.eqb d "]").
    - intros [= _ <-]. lia.
    - intros H. apply (parse_elements_length _ IH) in H. lia. }
  destruct (Ascii.eqb c quote).
  { destruct (string_body r0 []) as [[k r1]|] eqn:E1; [|discriminate].
    apply (string_body_length _ _ _ _ _ (le_n _)) in E1.
    intros [= _ <-]. lia. }
  destruct (Ascii.eqb c "t");
    [intros H; apply literal_length in H; [simpl in H; lia | discriminate]|].
  destruct (Ascii.eqb c "f");
    [intros H; apply literal_length in H; [simpl in H; lia | discriminate]|].
  destruct (Ascii.eqb c "n");
    [intros H; apply literal_length in H; [simpl in H; lia | discriminate]|].
  intros H. change (parse_number (c :: r0) = Parsed (v, r)) in H.
  apply parse_number_length in H. simpl in H. lia.
Qed.


Lemma parse_number_not_NoFuel (s : list ascii) : parse_number s <> NoFuel.
Proof.
  assert (H : forall neg s1, number_after_sign neg s1 <> NoFuel).
  { intros neg s1. unfold number_after_sign.
    destruct (parse_int_part s1) as [[ip s2]|]; [|discriminate].
    destruct (parse_frac_part s2) as [[fp s3]|]; [|discriminate].
    destruct (parse_exp_part s3) as [[e s4]|]; discriminate. }
  destruct s as [|c s]; simpl; [discriminate|].
  destruct (Ascii.eqb c "-"); apply H.
Qed.

Lemma literal_not_NoFuel (word : string) (v : JSON) (s : list ascii) :
  literal word v s <> NoFuel.
Proof. unfold literal. destruct (starts_with _ s); discriminate. Qed.

Section Bound.
Variable value : list ascii -> Parse (JSON * list ascii).
Variable bound : nat.
Hypothesis value_consumes : consumes value.
Hypothesis value_within : forall s, List.length s < bound -> value s <> NoFuel.

Lemma parse_elements_within (n : nat) :
  forall acc s,
    List.length s <= n -> 0 < n -> List.length s < bound ->
    parse_elements value n acc s <> NoFuel.
Proof.
  induction n as [|n IH]; intros acc s Hn Hpos Hb; [lia|]. simpl.
  destruct (value s) as [[v1 r1]| |] eqn:E; [|discriminate|now apply value_within in E].
  apply value_consumes in E.
  destruct (skip_ws r1) as [|c r'] eqn:Ews; [discriminate|].
  apply skip_ws_cons in Ews.
  destruct (Ascii.eqb c ","); [apply IH; lia|].
  destruct (Ascii.eqb c "]"); discriminate.
Qed.

Lemma parse_members_within (n : nat) :
  forall acc s,
    List.length s <= n -> 0 < n -> List.length s < bound ->
    parse_members value n acc s <> NoFuel.
Proof.
  induction n as [|n IH]; intros acc s Hn Hpos Hb; [lia|]. simpl.
  destruct (skip_ws s) as [|q r0] eqn:E0; [discriminate|].
  apply skip_ws_cons in E0.
  destruct (Ascii.eqb q quote); [|discriminate].
  destruct (string_body r0 []) as [[k r1]|] eqn:E1; [|discriminate].
  apply (string_body_length _ _ _ _ _ (le_n _)) in E1.
  destruct (skip_ws r1) as [|c r2] eqn:E2; [discriminate|].
  apply skip_ws_cons in E2.
  destruct (Ascii.eqb c ":"); [|discriminate].
  destruct (value r2) as [[v3 r3]| |] eqn:E3;
    [|discriminate|apply value_within in E3; [contradiction|lia]].
  apply value_consumes in E3.
  destruct (skip_ws r3) as [|d r4] eqn:E4; [discriminate|].
  apply skip_ws_cons in E4.
  destruct (Ascii.eqb d ","); [apply IH; lia|].
  destruct (Ascii.eqb d "}"); discriminate.
Qed.

End Bound.

Lemma parse_value_within (fuel : nat) :
  forall s, List.length s < fuel -> parse_value fuel s <> NoFuel.
Proof.
  induction fuel as [|fuel IH]; intros s Hs; [lia|]. simpl.
  destruct (skip_ws s) as [|c r0] eqn:E0; [discriminate|].
  apply skip_ws_cons in E0.
  destruct (Ascii.eqb c "{").
  { destruct (skip_ws r0) as [|d r1] eqn:E1; [discriminate|].
    apply skip_ws_cons in E1. destruct (Ascii.eqb d "}"); [discriminate|].
    apply (parse_members_within _ fuel (parse_value_length fuel) IH); lia. }
  destruct (Ascii.eqb c "[").
  { destruct (skip_ws r0) as [|d r1] eqn:E1; [discriminate|].
    apply skip_ws_cons in E1. destruct (Ascii.eqb d "]"); [discriminate|].
    apply (parse_elements_within _ fuel (parse_value_length fuel) IH); lia. }
  destruct (Ascii.eqb c quote); [destruct (string_body r0 []) as [[k r1]|]; discriminate|].
  destruct (Ascii.eqb c "t"); [apply literal_not_NoFuel|].
  destruct (Ascii.eqb c "f"); [apply literal_not_NoFuel|].
  destruct (Ascii.eqb c "n"); [apply literal_not_NoFuel|].
  apply (parse_number_not_NoFuel (c :: r0)).
Qed.

(** The bound [JSON_parse] gives [parse_value] is never reached: a [None] of
    [JSON_parse] is a syntax error of the text, or input left after the
    value. *)
Theorem JSON_parse_bound (text : string) :
  parse_value (S (List.length (list_ascii_of_string text)))
    (list_ascii_of_string text) <> NoFuel.
Proof. apply parse_value_within. lia. Qed.

End JsonFacts.

(** ** The translator *)

Module TranslatorFacts.

Lemma run_app (st : ToolState) (a b : list RawEvent) :
  run st (a ++ b) =
  (fst (run (fst (run st a)) b),
   (snd (run st a) ++ snd (run (fst (run st a)) b))%list).
Proof.
  revert st. induction a as [|e a IH]; intros st; simpl.
  - now destruct (run st b).
  - destruct (step st e) as [st1 out1]. rewrite IH.
    destruct (run st1 a) as [st2 out2]; simpl.
    now rewrite app_assoc.
Qed.

Lemma run_one (st : ToolState) (e : RawEvent) : run st [e] = step st e.
Proof. simpl. destruct (step st e) as [s o]. now rewrite app_nil_r. Qed.

Lemma translate_snoc (evs : list RawEvent) (e : RawEvent) :
  translate (evs ++ [e]) = (translate evs ++ emitted_at evs e)%list.
Proof.
  unfold translate, emitted_at, state_after.
  now rewrite run_app, run_one.
Qed.

Lemma state_after_snoc (evs : list RawEvent) (e : RawEvent) :
  state_after (evs ++ [e]) = fst (step (state_after evs) e).
Proof.
  unfold state_after. now rewrite run_app, run_one.
Qed.

Lemma translate_app (a b : list RawEvent) :
  translate (a ++ b) = (translate a ++ snd (run (state_after a) b))%list.
Proof. unfold translate, state_after. now rewrite run_app. Qed.

(** What one step emits, event by event. *)
Lemma step_text_contents (st : ToolState) (e : RawEvent) :
  text_contents (snd (step st e)) =
  filter nonempty (somes [text_fragment e]).
Proof.
  destruct e as [b|d| | |ty]; simpl; try reflexivity.
  - now case_if.
  - unfold text_fragment, nonempty.
    destruct (delta_type d =? "text_delta"), (delta_text d) as [t|]; simpl;
      try destruct (String.eqb_spec t ""); simpl; repeat case_if; reflexivity.
  - now case_if.
Qed.

Lemma run_text_contents (evs : list RawEvent) (st : ToolState) :
  text_contents (snd (run st evs)) = filter nonempty (text_fragments evs).
Proof.
  revert st. induction evs as [|e evs IH]; intros st; [reflexivity|].
  simpl. pose proof (step_text_contents st e) as Hs.
  destruct (step st e) as [st1 out1]. specialize (IH st1).
  destruct (run st1 evs) as [st2 out2]. simpl in *.
  unfold text_contents in *. rewrite map_app, somes_app, Hs, IH.
  unfold text_fragments. simpl.
  destruct (text_fragment e) as [t|]; simpl; [|reflexivity].
  destruct (nonempty t); reflexivity.
Qed.

(** C1. The trace of the specification: a tool call [search] with id [t1]
    opens, receives the JSON text [{"q":"x"}] and closes, then the text
    [Found it] arrives and the message stops. The handler enqueues, in this
    order and nothing else, [tool_start], [tool_complete] with the parsed
    input, [text] and [done]. *)
Theorem search_trace :
  translate
    [content_block_start
       {| block_type := "tool_use"; block_name := Some "search";
          block_id := Some "t1" |};
     content_block_delta
       {| delta_type := "input_json_delta"; delta_text := None;
          delta_partial_json := Some (js "{'q':'x'}") |};
     content_block_stop;
     content_block_delta
       {| delta_type := "text_delta"; delta_text := Some "Found it";
          delta_partial_json := None |};
     message_stop]
  = [tool_start "search" "t1";
     tool_complete "search" "t1" (JObject [("q", JString "x")]);
     text "Found it";
     done].
Proof.
  unfold translate. cbn [run snd].
  cbv [step]. cbn [block_type block_name block_id delta_type delta_text
                     delta_partial_json].
  vm_compute. reflexivity.
Qed.

(** C3. For every raw event sequence, the contents of the [text] events, in
    the order they are enqueued, are the text fragments of the sequence in
    arrival order with the empty ones left out; so their concatenation is
    the concatenation of all the fragments: none is lost, moved or
    repeated. *)
Theorem text_is_forwarded_in_order (evs : list RawEvent) :
  text_contents (translate evs) = filter nonempty (text_fragments evs)
  /\ concat_all (text_contents (translate evs)) = concat_all (text_fragments evs).
Proof.
  assert (H : text_contents (translate evs) = filter nonempty (text_fragments evs))
    by apply run_text_contents.
  split; [exact H|]. rewrite H. apply concat_all_nonempty.
Qed.


Lemma step_text_nonempty (st : ToolState) (e : RawEvent) :
  Forall text_nonempty (snd (step st e)).
Proof.
  destruct e as [b|d| | |ty]; simpl; repeat case_if; simpl;
    repeat constructor; simpl; try exact I.
  apply andb_prop in Heqb as [_ Ht]. now apply truthy_or_else in Ht.
Qed.

Lemma run_text_nonempty (evs : list RawEvent) (st : ToolState) :
  Forall text_nonempty (snd (run st evs)).
Proof.
  revert st. induction evs as [|e evs IH]; intros st; simpl; [constructor|].
  pose proof (step_text_nonempty st e) as Hs.
  destruct (step st e) as [st1 out1]. specialize (IH st1).
  destruct (run st1 evs) as [st2 out2]. simpl in *.
  apply Forall_app. now split.
Qed.

(** C10. Every [text] event the handler enqueues has a content that is not
    empty. A delta of type [text_delta] whose [text] is absent or empty
    enqueues nothing and changes nothing, and a delta of type
    [input_json_delta] whose [partial_json] is absent or empty leaves the
    accumulated input, and the rest of the state, as they were. *)
Theorem text_events_are_nonempty :
  (forall evs, Forall text_nonempty (translate evs))
  /\ (forall st d,
        delta_type d = "text_delta" ->
        delta_text d = None \/ delta_text d = Some "" ->
        step st (content_block_delta d) = (st, []))
  /\ (forall st d,
        delta_type d = "input_json_delta" ->
        delta_partial_json d = None \/ delta_partial_json d = Some "" ->
        step st (content_block_delta d) = (st, [])).
Proof.
  split; [|split].
  - intros evs. apply run_text_nonempty.
  - intros st d Hty Ht. apply not_truthy in Ht.
    simpl. rewrite Hty, Ht. reflexivity.
  - intros st d Hty Hj. apply not_truthy in Hj.
    simpl. rewrite Hty, Hj. reflexivity.
Qed.

Lemma text_events_are_nonempty_witness :
  step initial
    (content_block_delta
       {| delta_type := "text_delta"; delta_text := Some "";
          delta_partial_json := None |}) = (initial, [])
  /\ step initial
       (content_block_delta
          {| delta_type := "input_json_delta"; delta_text := None;
             delta_partial_json := None |}) = (initial, []).
Proof.
  split.
  - apply (proj1 (proj2 text_events_are_nonempty)); simpl; [reflexivity | now right].
  - apply (proj2 (proj2 text_events_are_nonempty)); simpl; [reflexivity | now left].
Defined.


(** *** Tool calls: what is open in the output and what the state holds *)

Lemma open_id_app (i : string) (out l : list DownstreamEvent) :
  open_id i (out ++ l) = fold_left (mark i) l (open_id i out).
Proof. unfold open_id. apply fold_left_app. Qed.


(** [open_id] in words: some [tool_start] with the id is in the output with
    no [tool_complete] with the id after it. *)
Lemma fold_mark_true (i : string) (out : list DownstreamEvent) :
  forall flag,
    fold_left (mark i) out flag = true <->
    (exists pre name post,
        out = (pre ++ tool_start name i :: post)%list
        /\ forall n inp, ~ In (tool_complete n i inp) post)
    \/ (flag = true /\ forall n inp, ~ In (tool_complete n i inp) out).
Proof.
  induction out as [|ev out IH]; intros flag; simpl.
  - split.
    + intros ->. right. split; [reflexivity | intros n inp []].
    + intros [(pre & n & post & H & _)|[H _]]; [|exact H].
      now destruct pre.
  - rewrite IH. split.
    + intros [(pre & n & post & -> & Hpost)|[Hm Hout]].
      * left. exists (ev :: pre), n, post. now split.
      * destruct ev as [c|n j|n j inp| |m]; simpl in Hm;
          try (right; split; [exact Hm|]; intros n' inp' [H|H];
               [discriminate | now apply (Hout n' inp')]).
        -- destruct (String.eqb_spec j i) as [->|Hne].
           ++ left. now exists [], n, out.
           ++ right. split; [exact Hm|]. intros n' inp' [H|H];
                [discriminate | now apply (Hout n' inp')].
        -- destruct (String.eqb_spec j i) as [->|Hne]; [discriminate|].
           right. split; [exact Hm|]. intros n' inp' [H|H].
           ++ injection H as _ Hj _. now elim Hne.
           ++ now apply (Hout n' inp').
    + intros [(pre & n & post & Heq & Hpost)|[-> Hout]].
      * destruct pre as [|x pre]; simpl in Heq; injection Heq as -> ->.
        -- right. simpl. now rewrite String.eqb_refl.
        -- left. now exists pre, n, post.
      * right. split; [|intros n inp H; apply (Hout n inp); now right].
        destruct ev as [c|n j|n j inp| |m]; simpl; try reflexivity.
        -- now destruct (j =? i).
        -- destruct (String.eqb_spec j i) as [->|Hne]; [|reflexivity].
           exfalso. apply (Hout n inp). now left.
Qed.

Lemma open_id_true (i : string) (out : list DownstreamEvent) :
  open_id i out = true <->
  exists pre name post,
    out = (pre ++ tool_start name i :: post)%list
    /\ forall n inp, ~ In (tool_complete n i inp) post.
Proof.
  unfold open_id. rewrite fold_mark_true. split; [|now left].
  intros [H|[H _]]; [exact H | discriminate].
Qed.

Lemma step_start (st : ToolState) (b : ContentBlock) :
  step st (content_block_start b) =
  if opens_tool b then
    ({| currentToolName := or_else (block_name b) "";
        currentToolInput := "";
        currentToolId := or_else (block_id b) "" |},
     [tool_start (or_else (block_name b) "") (or_else (block_id b) "")])
  else (st, []).
Proof. reflexivity. Qed.

Lemma opens_tool_name (b : ContentBlock) :
  opens_tool b = true -> or_else (block_name b) "" <> "".
Proof.
  unfold opens_tool. intros H. apply andb_prop in H as [_ H].
  now apply truthy_or_else in H.
Qed.

Lemma step_delta_state (st : ToolState) (d : Delta) :
  currentToolName (fst (step st (content_block_delta d))) = currentToolName st
  /\ currentToolId (fst (step st (content_block_delta d))) = currentToolId st
  /\ forall i out,
       open_id i (out ++ snd (step st (content_block_delta d))) = open_id i out.
Proof.
  simpl. repeat case_if; simpl; repeat split; intros;
    rewrite ?app_nil_r, ?open_id_app; reflexivity.
Qed.

Lemma step_keeps_open (st : ToolState) (out : list DownstreamEvent) (e : RawEvent) :
  state_is_open_in st out ->
  state_is_open_in (fst (step st e)) (out ++ snd (step st e)).
Proof.
  unfold state_is_open_in. intros H.
  destruct e as [b|d| | |ty].
  - rewrite step_start. destruct (opens_tool b); simpl.
    + intros _. rewrite open_id_app. simpl. now rewrite String.eqb_refl.
    + now rewrite app_nil_r.
  - destruct (step_delta_state st d) as (Hn & Hi & Ho).
    rewrite Hn, Hi, Ho. exact H.
  - simpl. destruct (currentToolName st =? "") eqn:E; simpl.
    + now rewrite app_nil_r.
    + intros Hne. now elim Hne.
  - simpl. now rewrite open_id_app.
  - simpl. now rewrite app_nil_r.
Qed.

Lemma state_open_in_output (evs : list RawEvent) :
  state_is_open_in (state_after evs) (translate evs).
Proof.
  induction evs as [|e evs IH] using rev_ind.
  - intros H. now elim H.
  - rewrite state_after_snoc, translate_snoc. now apply step_keeps_open.
Qed.

Lemma step_tracks (o : bool) (st : ToolState) (out : list DownstreamEvent)
      (e : RawEvent) (rest : list RawEvent) :
  tracks o st out ->
  one_at_a_time o (e :: rest) = true ->
  exists o', tracks o' (fst (step st e)) (out ++ snd (step st e))
             /\ one_at_a_time o' rest = true.
Proof.
  intros [Ho Hout] Hc.
  destruct e as [b|d| | |ty].
  - rewrite step_start. simpl in Hc. destruct (opens_tool b) eqn:Eb.
    + apply andb_prop in Hc as [Hno Hrest]. apply negb_true_iff in Hno.
      exists true. split; [split|exact Hrest]; simpl.
      * apply opens_tool_name in Eb. apply String.eqb_neq in Eb. now rewrite Eb.
      * intros i. rewrite open_id_app. simpl.
        destruct (String.eqb_spec (or_else (block_id b) "") i) as [->|Hne].
        -- tauto.
        -- split.
           ++ intros H. apply Hout in H as [H _]. congruence.
           ++ intros [_ H]. now elim Hne.
    + exists o. simpl. rewrite app_nil_r. split; [split; assumption | exact Hc].
  - destruct (step_delta_state st d) as (Hn & Hi & Hd).
    exists o. split; [split|exact Hc].
    + now rewrite Hn.
    + intros i. rewrite Hd, Hi. apply Hout.
  - exists false. simpl in Hc. split; [|exact Hc].
    simpl. destruct (currentToolName st =? "") eqn:E; simpl.
    + rewrite app_nil_r. split; [now rewrite E|]. intros i.
      rewrite Hout, Ho. simpl. split; intros [H _]; discriminate.
    + split; [reflexivity|]. intros i. rewrite open_id_app. simpl.
      destruct (String.eqb_spec (currentToolId st) i) as [Heq|Hne].
      * split; [discriminate | intros [H _]; discriminate].
      * split; [|intros [H _]; discriminate].
        intros H. apply Hout in H as [_ H]. now elim Hne.
  - exists o. split; [|exact Hc]. simpl. split; [exact Ho|].
    intros i. rewrite open_id_app. simpl. apply Hout.
  - exists o. split; [|exact Hc]. simpl. rewrite app_nil_r. split; assumption.
Qed.

Lemma run_tracks (evs : list RawEvent) :
  forall o st out,
    tracks o st out ->
    one_at_a_time o evs = true ->
    exists o', tracks o' (fst (run st evs)) (out ++ snd (run st evs)).
Proof.
  induction evs as [|e evs IH]; intros o st out Ht Hc.
  - exists o. simpl. now rewrite app_nil_r.
  - destruct (step_tracks o st out e evs Ht Hc) as (o1 & Ht1 & Hc1).
    destruct (IH o1 _ _ Ht1 Hc1) as (o2 & Ht2).
    exists o2. simpl. destruct (step st e) as [st1 out1].
    simpl in *. destruct (run st1 evs) as [st2 out2]. simpl in *.
    now rewrite app_assoc.
Qed.

Lemma emitted_complete (evs : list RawEvent) (e : RawEvent)
      (n i : string) (inp : JSON) :
  In (tool_complete n i inp) (emitted_at evs e) ->
  e = content_block_stop
  /\ currentToolName (state_after evs) <> ""
  /\ currentToolId (state_after evs) = i.
Proof.
  unfold emitted_at. destruct e as [b|d| | |ty]; simpl.
  - case_if; simpl; [intros [H|[]]; discriminate | intros []].
  - repeat case_if; simpl; intros H; try (destruct H as [H|[]]; discriminate);
      destruct H.
  - destruct (String.eqb_spec (currentToolName (state_after evs)) ""); simpl.
    + intros [].
    + intros [H|[]]. injection H as _ Hi _. now repeat split.
  - intros [H|[]]; discriminate.
  - intros [].
Qed.

(** C2 (as the code has it). For every raw event sequence, an event makes
    the handler enqueue a [tool_complete] with some id only when a
    [tool_start] with that id was enqueued before and no [tool_complete] with
    that id followed it. When moreover no tool call opens while another is
    open, a [content_block_stop] enqueues a [tool_complete] with an id exactly
    when that id is open in this sense. A [content_block_stop] that finds no
    tool call open enqueues nothing. *)
Theorem tool_complete_matches_open_start :
  (forall evs e name i input,
      In (tool_complete name i input) (emitted_at evs e) ->
      open_id i (translate evs) = true)
  /\ (forall evs, one_at_a_time false evs = true -> complete_iff_open evs)
  /\ (forall evs,
        currentToolName (state_after evs) = "" ->
        emitted_at evs content_block_stop = []).
Proof.
  split; [|split].
  - intros evs e n i inp H.
    apply emitted_complete in H as (_ & Hn & <-).
    now apply state_open_in_output.
  - intros evs Hc i.
    assert (Ht0 : tracks false initial []).
    { split; [reflexivity|]. intros j. simpl. split; [discriminate|].
      intros [H _]; discriminate. }
    destruct (run_tracks evs false initial [] Ht0 Hc) as (o & Ho & Hout).
    simpl in Hout. fold (translate evs) in Hout. fold (state_after evs) in Ho, Hout.
    rewrite Hout. split.
    + intros (n & inp & H). apply emitted_complete in H as (_ & Hn & Hi).
      split; [|exact Hi]. rewrite Ho. apply String.eqb_neq in Hn. now rewrite Hn.
    + intros [Hopen Hi]. unfold emitted_at. simpl.
      rewrite Ho in Hopen. rewrite Hopen. subst i.
      eexists _, _. left. reflexivity.
  - intros evs H. unfold emitted_at. simpl. now rewrite H.
Qed.


Lemma tool_complete_matches_open_start_witness :
  complete_iff_open
    [content_block_start
       {| block_type := "mcp_tool_use"; block_name := Some "search";
          block_id := Some "t1" |};
     content_block_delta
       {| delta_type := "input_json_delta"; delta_text := None;
          delta_partial_json := Some "{}" |}].
Proof.
  apply (proj1 (proj2 tool_complete_matches_open_start)). reflexivity.
Defined.

(** C2, the claim as stated, fails when a second tool call opens before the
    first is closed: after [tool_start] for the ids [1] and [2] and one
    [content_block_stop] (which completes [2]), the id [1] is still open,
    and the next [content_block_stop] enqueues nothing. *)
Lemma overlapping_tool_calls_leave_one_open :
  let evs :=
    [content_block_start
       {| block_type := "tool_use"; block_name := Some "A"; block_id := Some "1" |};
     content_block_start
       {| block_type := "tool_use"; block_name := Some "B"; block_id := Some "2" |};
     content_block_stop] in
  translate evs =
    [tool_start "A" "1"; tool_start "B" "2"; tool_complete "B" "2" (JObject [])]
  /\ open_id "1" (translate evs) = true
  /\ emitted_at evs content_block_stop = []
  /\ ~ complete_iff_open evs.
Proof.
  cbv zeta. split; [vm_compute; reflexivity|].
  split; [vm_compute; reflexivity|].
  split; [vm_compute; reflexivity|].
  intros H. destruct (H "1") as [_ H1].
  destruct H1 as (n & inp & Hin); [vm_compute; reflexivity|].
  vm_compute in Hin. exact Hin.
Qed.

(** *** The input of a tool call *)

Lemma or_else_truthy (o : option string) :
  truthy o = true -> or_else o "" = match o with Some t => t | None => "" end.
Proof.
  destruct o as [s|]; simpl; [|discriminate].
  now destruct (s =? "").
Qed.

Lemma step_within_block (st : ToolState) (e : RawEvent) :
  within_block e = true ->
  fst (step st e) =
  {| currentToolName := currentToolName st;
     currentToolInput := currentToolInput st ++ concat_all (somes [json_fragment e]);
     currentToolId := currentToolId st |}.
Proof.
  destruct st as [n inp i]. destruct e as [b|d| | |ty]; simpl; intros Hw;
    try discriminate; rewrite ?append_empty_r; try reflexivity.
  - change (_ && truthy (block_name b)) with (opens_tool b).
    apply negb_true_iff in Hw. rewrite Hw. simpl. now rewrite ?append_empty_r.
  - destruct (String.eqb_spec (delta_type d) "text_delta") as [Ety|_]; simpl.
    + rewrite Ety. simpl. case_if; simpl; now rewrite ?append_empty_r.
    + destruct (delta_type d =? "input_json_delta"); simpl.
      * destruct (truthy (delta_partial_json d)) eqn:Et; simpl.
        -- now rewrite (or_else_truthy _ Et), ?append_empty_r.
        -- apply not_truthy in Et as [-> | ->]; simpl; now rewrite ?append_empty_r.
      * now rewrite ?append_empty_r.
Qed.

Lemma run_within_block (mid : list RawEvent) (st : ToolState) :
  forallb within_block mid = true ->
  fst (run st mid) =
  {| currentToolName := currentToolName st;
     currentToolInput := currentToolInput st ++ concat_all (json_fragments mid);
     currentToolId := currentToolId st |}.
Proof.
  revert st. induction mid as [|e mid IH]; intros st Hw.
  - destruct st. simpl. now rewrite append_empty_r.
  - simpl in Hw. apply andb_prop in Hw as [He Hmid].
    simpl. pose proof (step_within_block st e He) as Hs.
    destruct (step st e) as [st1 out1]. simpl in Hs.
    specialize (IH st1 Hmid). destruct (run st1 mid) as [st2 out2].
    simpl in *. rewrite IH, Hs. simpl.
    unfold json_fragments. simpl.
    rewrite append_assoc. f_equal.
    destruct (json_fragment e); simpl; now rewrite ?append_empty_r.
Qed.

(** C4. When a tool call is opened and then closed by [content_block_stop],
    with any events in between that neither open nor close a tool call, the
    handler enqueues [tool_complete] whose input is read from the
    concatenation, in arrival order, of the JSON fragments received in
    between: the parsed value when the text parses, [{ raw: text }] when it
    is not empty and does not parse, the empty object when it is empty. The
    step always returns and always enqueues the [tool_complete]. The
    fragments [{"a":1] and [}] give [{ "a": 1 }]; the fragments [{"a":] and
    [bad}] give [{ raw: '{"a":bad}' }]. *)
Theorem tool_input_is_read_from_the_fragments :
  (forall st b mid,
      opens_tool b = true ->
      forallb within_block mid = true ->
      step (fst (run st (content_block_start b :: mid))) content_block_stop =
      (initial,
       [tool_complete (or_else (block_name b) "") (or_else (block_id b) "")
          (parsedInput (concat_all (json_fragments mid)))]))
  /\ (forall s v, JSON_parse s = Some v -> parsedInput s = v)
  /\ (forall s, JSON_parse s = None -> s <> "" ->
                parsedInput s = JObject [("raw", JString s)])
  /\ parsedInput "" = JObject []
  /\ (let fragment (s : string) :=
        content_block_delta
          {| delta_type := "input_json_delta"; delta_text := None;
             delta_partial_json := Some s |} in
      let open :=
        content_block_start
          {| block_type := "tool_use"; block_name := Some "f";
             block_id := Some "t" |} in
      translate [open; fragment (js "{'a':1"); fragment "}"; content_block_stop]
      = [tool_start "f" "t"; tool_complete "f" "t" (JObject [("a", JNumber 1 0)])]
      /\ translate [open; fragment (js "{'a':"); fragment "bad}"; content_block_stop]
         = [tool_start "f" "t";
            tool_complete "f" "t" (JObject [("raw", JString (js "{'a':bad}"))])]).
Proof.
  split; [|split; [|split; [|split]]].
  - intros st b mid Hb Hmid.
    assert (Hst : fst (run st (content_block_start b :: mid)) =
                  {| currentToolName := or_else (block_name b) "";
                     currentToolInput := concat_all (json_fragments mid);
                     currentToolId := or_else (block_id b) "" |}).
    { pose proof (run_app st [content_block_start b] mid) as Happ.
      simpl app in Happ. rewrite Happ, run_one, step_start, Hb. simpl.
      now rewrite run_within_block. }
    rewrite Hst. simpl.
    apply opens_tool_name, String.eqb_neq in Hb. now rewrite Hb.
  - intros s v H. unfold parsedInput. now rewrite H.
  - intros s H Hne. unfold parsedInput. rewrite H.
    apply String.eqb_neq in Hne. now rewrite Hne.
  - vm_compute. reflexivity.
  - cbv zeta. split; vm_compute; reflexivity.
Qed.

Lemma tool_input_is_read_from_the_fragments_witness :
  step
    (fst (run initial
            [content_block_start
               {| block_type := "tool_use"; block_name := Some "f";
                  block_id := None |};
             content_block_delta
               {| delta_type := "input_json_delta"; delta_text := None;
                  delta_partial_json := Some "[1," |};
             message_stop;
             content_block_delta
               {| delta_type := "input_json_delta"; delta_text := None;
                  delta_partial_json := Some "2]" |}]))
    content_block_stop
  = (initial,
     [tool_complete "f" "" (JArray [JNumber 1 0; JNumber 2 0])]).
Proof.
  exact (proj1 tool_input_is_read_from_the_fragments initial
           {| block_type := "tool_use"; block_name := Some "f"; block_id := None |}
           [content_block_delta
              {| delta_type := "input_json_delta"; delta_text := None;
                 delta_partial_json := Some "[1," |};
            message_stop;
            content_block_delta
              {| delta_type := "input_json_delta"; delta_text := None;
                 delta_partial_json := Some "2]" |}]
           eq_refl eq_refl).
Defined.


(** *** The end of the message and the end of the stream *)

Lemma step_done (st : ToolState) (e : RawEvent) :
  In done (snd (step st e)) -> e = message_stop.
Proof.
  destruct e as [b|d| | |ty]; simpl; repeat case_if; simpl;
    intros H; try reflexivity;
    repeat (destruct H as [H|H]; [discriminate|]); destruct H.
Qed.

Lemma run_done (evs : list RawEvent) (st : ToolState) :
  forallb (fun e => negb (is_message_stop e)) evs = true ->
  ~ In done (snd (run st evs)).
Proof.
  revert st. induction evs as [|e evs IH]; intros st Hno; simpl; [tauto|].
  simpl in Hno. apply andb_prop in Hno as [He Hevs].
  pose proof (step_done st e) as Hs.
  destruct (step st e) as [st1 out1]. specialize (IH st1 Hevs).
  destruct (run st1 evs) as [st2 out2]. simpl in *.
  intros Hin. apply in_app_or in Hin as [Hin|Hin]; [|tauto].
  apply Hs in Hin. subst e. discriminate.
Qed.

Lemma last_occurrence {A : Type} (x : A) (l pre post : list A) :
  ~ In x l -> (l ++ [x] = pre ++ x :: post)%list -> post = [].
Proof.
  intros Hno Heq.
  destruct post as [|y post] using rev_ind; [reflexivity|].
  exfalso. clear IHpost.
  change (pre ++ x :: post ++ [y])%list with (pre ++ (x :: post) ++ [y])%list in Heq.
  rewrite app_assoc in Heq. apply app_inj_tail in Heq as [Hl _].
  apply Hno. rewrite Hl. apply in_or_app. right. now left.
Qed.

(** C5 (as the code has it). A [message_stop] makes the handler enqueue
    [done] and the loop goes on: the events that follow it are translated as
    before. When [message_stop] is the last event the provider yields, the
    only one of its kind, and the provider's stream then ends without
    throwing, [done] is the last event of the response, which is closed. *)
Theorem done_is_last_when_message_stop_is :
  (forall evs rest,
      translate (evs ++ message_stop :: rest) =
      (translate evs ++ done :: snd (run (state_after evs) rest))%list)
  /\ (forall evs,
        forallb (fun e => negb (is_message_stop e)) evs = true ->
        let c := start {| events := evs ++ [message_stop]; ending := Exhausted |} in
        enqueued c = (translate evs ++ [done])%list
        /\ done_is_last (enqueued c)
        /\ closed c = true).
Proof.
  split.
  - intros evs rest. rewrite translate_app. f_equal. simpl.
    now destruct (run (state_after evs) rest).
  - intros evs Hno. cbv zeta. unfold start. simpl.
    assert (Ht : translate (evs ++ [message_stop]) = (translate evs ++ [done])%list)
      by (now rewrite translate_snoc).
    split; [exact Ht|]. split; [|reflexivity].
    intros pre post Heq. rewrite Ht in Heq.
    apply (last_occurrence done (translate evs) pre post); [|exact Heq].
    now apply run_done.
Qed.

Lemma done_is_last_when_message_stop_is_witness :
  done_is_last
    (enqueued
       (start
          {| events :=
               [content_block_delta
                  {| delta_type := "text_delta"; delta_text := Some "hello";
                     delta_partial_json := None |}] ++ [message_stop];
             ending := Exhausted |})).
Proof.
  apply (proj2 done_is_last_when_message_stop_is
           [content_block_delta
              {| delta_type := "text_delta"; delta_text := Some "hello";
                 delta_partial_json := None |}]).
  reflexivity.
Defined.

(** C5, the claim as stated, fails: a text delta that arrives after
    [message_stop] is enqueued after [done]; so is the [error] event when the
    provider's stream throws after [message_stop]. *)
Lemma events_after_message_stop_are_translated :
  let evs :=
    [message_stop;
     content_block_delta
       {| delta_type := "text_delta"; delta_text := Some "late";
          delta_partial_json := None |}] in
  translate evs = [done; text "late"]
  /\ ~ done_is_last (translate evs)
  /\ enqueued (start {| events := [message_stop];
                        ending := Throws (ErrorInstance "reset") |})
     = [done; error "reset"].
Proof.
  cbv zeta. split; [reflexivity|]. split; [|reflexivity].
  intros H. specialize (H [] [text "late"] eq_refl). discriminate.
Qed.

Lemma step_no_error (st : ToolState) (e : RawEvent) :
  filter is_error (snd (step st e)) = [].
Proof.
  destruct e as [b|d| | |ty]; simpl; repeat case_if; reflexivity.
Qed.

Lemma run_no_error (evs : list RawEvent) (st : ToolState) :
  filter is_error (snd (run st evs)) = [].
Proof.
  revert st. induction evs as [|e evs IH]; intros st; simpl; [reflexivity|].
  pose proof (step_no_error st e) as Hs.
  destruct (step st e) as [st1 out1]. specialize (IH st1).
  destruct (run st1 evs) as [st2 out2]. simpl in *.
  now rewrite filter_app, Hs, IH.
Qed.

(** C7. If the provider's stream throws after yielding any events, the
    handler enqueues what those events translate to, then one [error] event
    with the message of the error ([Unknown error] for a thrown value that is
    no [Error]), and closes the stream; that event is the only [error] event
    of the response. *)
Theorem stream_error_is_reported_once (evs : list RawEvent) (e : Thrown) :
  let c := start {| events := evs; ending := Throws e |} in
  enqueued c = (translate evs ++ [error (error_text e)])%list
  /\ filter is_error (enqueued c) = [error (error_text e)]
  /\ closed c = true
  /\ (forall m, e = ErrorInstance m -> last (enqueued c) done = error m).
Proof.
  cbv zeta. unfold start. simpl. repeat split.
  - rewrite filter_app. unfold translate. now rewrite run_no_error.
  - intros m ->. now rewrite last_last.
Qed.

Lemma stream_error_is_reported_once_witness :
  last
    (enqueued
       (start {| events := [message_stop];
                 ending := Throws (ErrorInstance "socket hang up") |}))
    done
  = error "socket hang up".
Proof.
  apply (stream_error_is_reported_once [message_stop]
           (ErrorInstance "socket hang up")).
  reflexivity.
Defined.

End TranslatorFacts.

(** ** The reading loop *)

Module ClientFacts.

Lemma split_lines_cons (s : string) : exists line lines, split_lines s = line :: lines.
Proof.
  induction s as [|c s (line & lines & IH)]; simpl.
  - now exists "", [].
  - case_if; [now eexists _, _|]. rewrite IH. now eexists _, _.
Qed.

(** Splitting at a newline: the lines before it, then the lines after it. *)
Lemma split_lines_newline (a b : string) :
  split_lines (a ++ newline ++ b) = (split_lines a ++ split_lines b)%list.
Proof.
  change (newline ++ b) with (String "010" b).
  induction a as [|c a IH]; simpl; [reflexivity|].
  case_if; [now rewrite IH|].
  rewrite IH. destruct (split_lines_cons a) as (line & lines & ->). reflexivity.
Qed.

Lemma decode_chunk_empty : decode_chunk "" = [].
Proof. reflexivity. Qed.

Lemma decode_chunk_newline (a b : string) :
  decode_chunk (a ++ newline ++ b) = (decode_chunk a ++ decode_chunk b)%list.
Proof. unfold decode_chunk. now rewrite split_lines_newline, flat_map_app. Qed.

Lemma decode_chunk_ends_newline (a : string) :
  decode_chunk (a ++ newline) = decode_chunk a.
Proof.
  rewrite <- (append_empty_r newline), decode_chunk_newline, decode_chunk_empty.
  apply app_nil_r.
Qed.


Section Frames.
Variable number_text : Z -> Z -> string.

Lemma body_bytes_app (out1 out2 : list DownstreamEvent) :
  body_bytes number_text (out1 ++ out2) =
  body_bytes number_text out1 ++ body_bytes number_text out2.
Proof. unfold body_bytes. now rewrite map_app, concat_all_app. Qed.

(** A body is empty or ends with a newline. *)
Lemma body_bytes_end (out : list DownstreamEvent) :
  out = [] \/ exists a, body_bytes number_text out = a ++ newline.
Proof.
  induction out as [|ev out IH] using rev_ind; [now left|]. right.
  rewrite body_bytes_app. unfold body_bytes at 2. simpl.
  rewrite append_empty_r. unfold encode, frame.
  exists (body_bytes number_text out ++ "data: "
          ++ JSON_stringify number_text (payload ev) ++ newline).
  now rewrite !append_assoc.
Qed.

Lemma decode_between_frames (out1 out2 : list DownstreamEvent) :
  decode_chunk (body_bytes number_text (out1 ++ out2)) =
  (decode_chunk (body_bytes number_text out1)
   ++ decode_chunk (body_bytes number_text out2))%list.
Proof.
  rewrite body_bytes_app.
  destruct (body_bytes_end out1) as [->|(a & Ha)]; [reflexivity|].
  rewrite Ha, append_assoc, decode_chunk_newline, decode_chunk_ends_newline.
  reflexivity.
Qed.

End Frames.

(** The frame of a text event, byte for byte. *)
Lemma text_frame_bytes (number_text : Z -> Z -> string) :
  encode number_text (text "hi")
  = js "data: {'type':'text','content':'hi'}" ++ newline ++ newline.
Proof. reflexivity. Qed.

(** *** Reads as bytes *)












Section Frames.
Variable number_text : Z -> Z -> string.

(** A body is empty or starts with the prefix of its first frame, so never
    with a byte order mark. *)
Lemma body_bytes_no_BOM (out : list DownstreamEvent) :
  String.prefix BOM (body_bytes number_text out) = false.
Proof. now destruct out. Qed.


End Frames.

(** The decoder leaves well-formed UTF-8 as it is. *)
Lemma decode_bytes_utf8 (n : nat) :
  forall s, String.length s <= n -> utf8 s = true -> decode_bytes idle s = s.
Proof.
  induction n as [|n IH]; intros s Hlen Hu.
  - destruct s; [reflexivity|]. simpl in Hlen. lia.
  - destruct s as [|c0 r0]; [reflexivity|].
    cbn [utf8] in Hu. cbn [decode_bytes decode_byte]. unfold first_byte.
    cbn [String.length] in Hlen. cbv zeta in Hu.
    destruct (nat_of_ascii c0 <=? 127)%nat.
    { cbn [append]. f_equal. apply IH; [lia | exact Hu]. }
    destruct ((194 <=? nat_of_ascii c0)%nat && (nat_of_ascii c0 <=? 223)%nat).
    { destruct r0 as [|c1 r1]; [discriminate|].
      apply andb_prop in Hu as [H1 Hu].
      cbn [append decode_bytes decode_byte]. rewrite H1. cbn [append].
      do 2 f_equal. apply IH; [cbn [String.length] in Hlen; lia | exact Hu]. }
    destruct ((224 <=? nat_of_ascii c0)%nat && (nat_of_ascii c0 <=? 239)%nat).
    { destruct r0 as [|c1 [|c2 r2]]; try discriminate.
      apply andb_prop in Hu as [H12 Hu]. apply andb_prop in H12 as [H1 H2].
      cbn [append decode_bytes decode_byte]. rewrite H1.
      cbn [append decode_bytes decode_byte]. rewrite H2. cbn [append].
      do 3 f_equal. apply IH; [cbn [String.length] in Hlen; lia | exact Hu]. }
    destruct ((240 <=? nat_of_ascii c0)%nat && (nat_of_ascii c0 <=? 244)%nat);
      [|discriminate].
    destruct r0 as [|c1 [|c2 [|c3 r3]]]; try discriminate.
    apply andb_prop in Hu as [H123 Hu]. apply andb_prop in H123 as [H12 H3].
    apply andb_prop in H12 as [H1 H2].
    cbn [append decode_bytes decode_byte]. rewrite H1.
    cbn [append decode_bytes decode_byte]. rewrite H2.
    cbn [append decode_bytes decode_byte]. rewrite H3. cbn [append].
    do 4 f_equal. apply IH; [cbn [String.length] in Hlen; lia | exact Hu].
Qed.

Lemma TextDecoder_decode_utf8 (value : string) :
  utf8 value = true -> String.prefix BOM value = false ->
  TextDecoder_decode value = value.
Proof.
  intros Hu Hb. unfold TextDecoder_decode, without_BOM. rewrite Hb.
  now apply (decode_bytes_utf8 (String.length value)).
Qed.



(** The decoder on the sample of the Unicode standard for ill-formed input:
    every maximal part of a sequence that cannot go on is one U+FFFD. *)
Example decoder_replaces_ill_formed_bytes :
  TextDecoder_decode
    (bytes [97; 241; 128; 128; 225; 128; 194; 98; 128; 99; 128; 191; 100])
  = "a" ++ replacement ++ replacement ++ replacement ++ "b" ++ replacement
    ++ "c" ++ replacement ++ replacement ++ "d".
Proof. reflexivity. Qed.





(** A cut between two frames is not harmless when the second read starts
    with a byte order mark: read on its own the mark is dropped and the
    frame decoded, read in one piece the mark stays at the head of the line,
    which then does not start with the prefix. *)
Example byte_order_mark_is_dropped_from_each_read :
  let frame := js "data: {'type':'done'}" ++ newline ++ newline in
  decode_frames [newline; BOM ++ frame] = [done]
  /\ decode_frames [newline ++ BOM ++ frame] = [].
Proof. cbv zeta. split; vm_compute; reflexivity. Qed.

(** Every object the route serialises reads back as the frame it came from. *)
Lemma event_of_payload (ev : DownstreamEvent) : event_of_data (payload ev) = Some ev.
Proof.
  destruct ev as [c|n i|n i inp| |m]; try reflexivity.
  - cbn. now destruct (i =? "") eqn:E; [apply String.eqb_eq in E as ->|].
  - cbn. now destruct (i =? "") eqn:E; [apply String.eqb_eq in E as ->|].
Qed.

(** The response to the trace of the specification, written as frames and
    read back whole, gives the four events again. *)
Example search_trace_on_the_wire (number_text : Z -> Z -> string) :
  decode_events
    [body_bytes number_text
       [tool_start "search" "t1";
        tool_complete "search" "t1" (JObject [("q", JString "x")]);
        text "Found it"; done]]
  = [tool_start "search" "t1";
     tool_complete "search" "t1" (JObject [("q", JString "x")]);
     text "Found it"; done].
Proof. vm_compute. reflexivity. Qed.

(** *** The list of tool calls *)

Lemma project_snoc (frames : list DownstreamEvent) (ev : DownstreamEvent) :
  project (frames ++ [ev]) = handle (project frames) ev.
Proof. unfold project. now rewrite fold_left_app. Qed.

Lemma matches_by_id (name id : string) (tc : ToolCall) :
  id <> "" -> (matches name id tc = true <-> tc_id tc = Some id).
Proof.
  intros Hid. unfold matches. apply String.eqb_neq in Hid. rewrite Hid. simpl.
  destruct (tc_id tc) as [i|]; [|split; discriminate].
  rewrite String.eqb_eq. split; [now intros -> | now intros [= ->]].
Qed.

Lemma matches_by_name (name : string) (tc : ToolCall) :
  matches name "" tc = true <-> tc_name tc = name /\ tc_status tc = running.
Proof.
  unfold matches. simpl. rewrite andb_true_iff, String.eqb_eq.
  destruct (tc_status tc); simpl; split; intros [H1 H2]; split;
    try assumption; try reflexivity; discriminate.
Qed.

(** C9. After any sequence of frames, a [tool_start] frame appends one
    running entry (with the frame's name, and its id or [tool-N] when that is
    empty) to the list of tool calls, which is the list of the assistant
    message shown. A [tool_complete] frame keeps the length and the order of
    the list; an entry is set to complete, with the frame's input attached
    and its name and id kept, when the frame has an id and the entry has the
    same id, or when the frame has no id and the entry has the frame's name
    and is running; every other entry is left as it was. *)
Theorem tool_calls_follow_the_frames (frames : list DownstreamEvent) :
  let before := currentToolCalls (project frames) in
  (forall name id,
      let st := project (frames ++ [tool_start name id]) in
      currentToolCalls st =
        (before ++
         [{| tc_name := name;
             tc_id := Some (if id =? "" then
                              ("tool-" ++ decimal (List.length before))%string
                            else id)%string;
             tc_input := None;
             tc_status := running |}])%list
      /\ toolCalls (shown st) = Some (currentToolCalls st))
  /\ (forall name id input,
        let st := project (frames ++ [tool_complete name id input]) in
        List.length (currentToolCalls st) = List.length before
        /\ toolCalls (shown st) = Some (currentToolCalls st)
        /\ forall k tc,
             nth_error before k = Some tc ->
             let entry :=
               {| tc_name := tc_name tc; tc_id := tc_id tc;
                  tc_input := Some input; tc_status := complete |} in
             (id <> "" -> tc_id tc = Some id ->
              nth_error (currentToolCalls st) k = Some entry)
             /\ (id = "" -> tc_name tc = name -> tc_status tc = running ->
                 nth_error (currentToolCalls st) k = Some entry)
             /\ (id <> "" /\ tc_id tc <> Some id
                 \/ id = "" /\ (tc_name tc <> name \/ tc_status tc <> running) ->
                 nth_error (currentToolCalls st) k = Some tc)).
Proof.
  cbv zeta. split.
  - intros name id. rewrite project_snoc. simpl. split; [|reflexivity].
    now destruct (id =? "").
  - intros name id input. rewrite project_snoc. simpl.
    split; [apply length_map|]. split; [reflexivity|].
    intros k tc Hk. rewrite nth_error_map, Hk. simpl.
    fold (completed input tc). split; [|split].
    + intros Hid Htc. apply (matches_by_id name) in Htc; [|exact Hid].
      now rewrite Htc.
    + intros -> Hn Hs.
      now rewrite (proj2 (matches_by_name name tc) (conj Hn Hs)).
    + intros H. destruct (matches name id tc) eqn:Em; [|reflexivity]. exfalso.
      destruct H as [[Hid Hne]|[-> H]].
      * apply matches_by_id in Em; [now elim Hne | exact Hid].
      * apply matches_by_name in Em as [Hn Hs]. destruct H as [H|H]; now elim H.
Qed.

Lemma tool_calls_follow_the_frames_witness :
  let input := JObject [("q", JString "x")] in
  let st :=
    project ([tool_start "search" ""; tool_start "fetch" "t2"]
               ++ [tool_complete "search" "" input]) in
  nth_error (currentToolCalls st) 0
  = Some {| tc_name := "search"; tc_id := Some "tool-0";
            tc_input := Some input; tc_status := complete |}
  /\ nth_error (currentToolCalls st) 1
     = Some {| tc_name := "fetch"; tc_id := Some "t2";
               tc_input := None; tc_status := running |}.
Proof.
  cbv zeta.
  destruct (tool_calls_follow_the_frames
              [tool_start "search" ""; tool_start "fetch" "t2"]) as [_ H].
  destruct (H "search" "" (JObject [("q", JString "x")])) as (_ & _ & Hk).
  split.
  - destruct (Hk 0 {| tc_name := "search"; tc_id := Some "tool-0";
                      tc_input := None; tc_status := running |} eq_refl)
      as (_ & Hname & _).
    exact (Hname eq_refl eq_refl eq_refl).
  - destruct (Hk 1 {| tc_name := "fetch"; tc_id := Some "t2";
                      tc_input := None; tc_status := running |} eq_refl)
      as (_ & _ & Hother).
    apply Hother. right. split; [reflexivity|]. left. discriminate.
Defined.

End ClientFacts.

(** ** The endpoint *)

Module EndpointFacts.

Section Answers.
Variable TypeError_message : TypeFault -> string.
Variable w : World.

Let answer (status : nat) (message : string) : Prop :=
  POST TypeError_message w = (JsonResponse status (error_body message), []).

Lemma setup_raises_500 (e : Thrown) :
  setup TypeError_message w = Raises e -> answer 500 (error_text e).
Proof. unfold answer, POST. now intros ->. Qed.

Lemma setup_rejected_400 :
  setup TypeError_message w = Returns Rejected -> answer 400 "Messages are required".
Proof. unfold answer, POST. now intros ->. Qed.

Lemma convert_null_element (items : list JSON) :
  In JNull items ->
  convert TypeError_message items
  = Raises (TypeError TypeError_message property_of_null).
Proof.
  induction items as [|msg items IH]; [intros []|].
  intros [->|Hin]; [reflexivity|]. cbn [convert].
  destruct msg; cbn [property bind]; try reflexivity; now rewrite (IH Hin).
Qed.

Lemma json_answers (status : nat) (body : JSON) (requests : list UpstreamRequest) :
  POST TypeError_message w = (JsonResponse status body, requests) ->
  requests = []
  /\ (status = 400 \/ status = 500)
  /\ exists message, body = error_body message.
Proof.
  unfold POST. destruct (setup TypeError_message w) as [[|request]|e];
    intros [= <- <- <-]; (split; [reflexivity|]); (split; [auto|]);
    eexists; reflexivity.
Qed.

End Answers.

(** The numbers that are falsy: zero in any spelling, and every literal at
    most 2^-1075 in magnitude (2.4703282292062327e-324 is below it,
    2.4703282292062328e-324 above). *)
Example numbers_that_read_as_zero :
  map (fun n => falsy (Some n))
      [JNumber 0 0; JNumber 0 (-1); JNumber 1 (-400); JNumber (-2) (-324);
       JNumber 24703282292062327 (-340); JNumber 24703282292062328 (-340);
       JNumber 5 (-324); JNumber 1 0; JNumber 1 400]
  = [true; true; true; true; true; false; false; false; false].
Proof. vm_compute. reflexivity. Qed.

(** C8 (as the code has it). A body that is an object without [messages],
    or with [messages] the empty array, is answered with status 400 and the
    JSON body [{ error: 'Messages are required' }], and no request is made to
    the provider. A failure of the outer [try], before the stream is built
    (the body cannot be read, the body is [null], the client cannot be
    constructed, [messages] is not an array or holds [null]), is answered
    with status 500 and the JSON body [{ error: message }], the message
    being that of the [Error] thrown, or 'Unknown error' for any other value
    thrown; again no request is made to the provider. A JSON answer always
    has status 400 or 500 and a body of that shape. A failure of the call to
    the provider is no such failure: the call is made inside the [start]
    callback of the stream, so the answer is the 200 event stream, which
    carries the events translated before the failure and then one error
    event, and the request to the provider has been made. *)
Theorem invalid_requests_are_answered_in_json
        (TypeError_message : TypeFault -> string) (w : World) :
  let answer status message :=
    POST TypeError_message w
    = (JsonResponse status (JObject [("error", JString message)]), []) in
  let unlike_missing m := falsy (Some m) || length_is_zero (Some m) = false in
  (forall fs,
      request_json w = Returns (JObject fs) ->
      field "messages" fs = None \/ field "messages" fs = Some (JArray []) ->
      answer 400 "Messages are required")
  /\ (forall message,
        request_json w = Raises (ErrorInstance message) -> answer 500 message)
  /\ (request_json w = Raises NotAnError -> answer 500 "Unknown error")
  /\ (request_json w = Returns JNull ->
      answer 500 (TypeError_message destructure_null))
  /\ (forall fs m e,
        request_json w = Returns (JObject fs) ->
        field "messages" fs = Some m ->
        unlike_missing m ->
        new_Anthropic w = Raises e ->
        answer 500 (error_text e))
  /\ (forall fs m,
        request_json w = Returns (JObject fs) ->
        field "messages" fs = Some m ->
        unlike_missing m ->
        new_Anthropic w = Returns tt ->
        (forall items, m <> JArray items) ->
        answer 500 (TypeError_message map_not_a_function))
  /\ (forall fs items,
        request_json w = Returns (JObject fs) ->
        field "messages" fs = Some (JArray items) ->
        new_Anthropic w = Returns tt ->
        In JNull items ->
        answer 500 (TypeError_message property_of_null))
  /\ (forall e, setup TypeError_message w = Raises e -> answer 500 (error_text e))
  /\ (forall status body requests,
        POST TypeError_message w = (JsonResponse status body, requests) ->
        requests = []
        /\ (status = 400 \/ status = 500)
        /\ exists message, body = JObject [("error", JString message)])
  /\ (forall request e,
        setup TypeError_message w = Returns (Accepted request) ->
        ending (messages_stream w request) = Throws e ->
        POST TypeError_message w
        = (StreamResponse 200
             [("Content-Type", "text/event-stream"); ("Cache-Control", "no-cache");
              ("Connection", "keep-alive")]
             {| enqueued :=
                  (translate (events (messages_stream w request))
                   ++ [error (error_text e)])%list;
                closed := true |},
           [request])).
Proof.
  cbv zeta. repeat apply conj.
  - intros fs Hb Hm. apply setup_rejected_400. unfold setup. rewrite Hb. simpl.
    now destruct Hm as [-> | ->].
  - intros message Hb. apply (setup_raises_500 _ _ (ErrorInstance message)).
    unfold setup. now rewrite Hb.
  - intros Hb. apply (setup_raises_500 _ _ NotAnError).
    unfold setup. now rewrite Hb.
  - intros Hb. apply (setup_raises_500 _ _ (TypeError TypeError_message destructure_null)).
    unfold setup. now rewrite Hb.
  - intros fs m e Hb Hm Hok Hc. apply setup_raises_500.
    unfold setup. rewrite Hb. cbn [bind destructure].
    rewrite Hm, Hok, Hc. reflexivity.
  - intros fs m Hb Hm Hok Hc Hna.
    apply (setup_raises_500 _ _ (TypeError TypeError_message map_not_a_function)).
    unfold setup. rewrite Hb. cbn [bind destructure].
    rewrite Hm, Hok, Hc. cbn [bind].
    destruct m as [|b|mm ee|str|items|fs']; try reflexivity.
    now elim (Hna items).
  - intros fs items Hb Hm Hc Hin.
    apply (setup_raises_500 _ _ (TypeError TypeError_message property_of_null)).
    unfold setup. rewrite Hb. cbn [bind destructure]. rewrite Hm.
    destruct items as [|x items']; [now destruct Hin|].
    cbn [falsy length_is_zero orb]. rewrite Hc. cbn [bind map_messages].
    now rewrite (convert_null_element _ _ Hin).
  - apply setup_raises_500.
  - apply json_answers.
  - intros request e Hs He. unfold POST, start. now rewrite Hs, He.
Qed.

Lemma invalid_requests_are_answered_in_json_witness :
  let w :=
    {| request_json := Returns (JObject [("messages", JArray [])]);
       new_Anthropic := Returns tt;
       messages_stream := fun _ => {| events := []; ending := Exhausted |} |} in
  POST (fun _ => "TypeError") w
  = (JsonResponse 400 (JObject [("error", JString "Messages are required")]), []).
Proof.
  cbv zeta.
  apply (proj1 (invalid_requests_are_answered_in_json (fun _ => "TypeError") _)
           [("messages", JArray [])]).
  - reflexivity.
  - now right.
Defined.

(** C8, the claim as stated, fails for a failure of the provider call: with
    a request that passes the checks and a client that is constructed, a
    call to the provider that throws before any event is answered with
    status 200 and the event stream, whose only frame is the error event;
    it is not answered with status 500 and a JSON body, and the request to
    the provider has been made. *)
Lemma provider_failure_is_answered_in_the_stream :
  let w :=
    {| request_json :=
         Returns (JObject [("messages",
                            JArray [JObject [("role", JString "user");
                                             ("content", JString "hi")]])]);
       new_Anthropic := Returns tt;
       messages_stream := fun _ =>
         {| events := []; ending := Throws (ErrorInstance "401 invalid x-api-key") |} |} in
  POST (fun _ => "TypeError") w
  = (StreamResponse 200
       [("Content-Type", "text/event-stream"); ("Cache-Control", "no-cache");
        ("Connection", "keep-alive")]
       {| enqueued := [error "401 invalid x-api-key"]; closed := true |},
     [{| messages := [{| role := Some (JString "user");
                         message_content := Some (JString "hi") |}];
         mcp_url := JString DEFAULT_MCP_URL |}])
  /\ (forall status body requests,
        POST (fun _ => "TypeError") w <> (JsonResponse status body, requests)).
Proof. cbv zeta. split; [reflexivity | discriminate]. Qed.

End EndpointFacts.

(** ** More on the translator *)

Module PairingFacts.

Lemma step_counts (st : ToolState) (e : RawEvent) :
  List.length (filter is_tool_start (snd (step st e))) = (if opens e then 1 else 0)
  /\ List.length (filter is_done (snd (step st e)))
     = (if is_message_stop e then 1 else 0).
Proof.
  destruct e as [b|d| | |ty]; simpl.
  - change (_ && truthy (block_name b)) with (opens_tool b).
    now destruct (opens_tool b).
  - repeat case_if; now split.
  - case_if; now split.
  - now split.
  - now split.
Qed.

Lemma run_counts (evs : list RawEvent) (st : ToolState) :
  List.length (filter is_tool_start (snd (run st evs)))
  = List.length (filter opens evs)
  /\ List.length (filter is_done (snd (run st evs)))
     = List.length (filter is_message_stop evs).
Proof.
  revert st. induction evs as [|e evs IH]; intros st; [now split|].
  simpl. destruct (step_counts st e) as [Hs Hd].
  destruct (step st e) as [st1 out1]. destruct (IH st1) as [IHs IHd].
  destruct (run st1 evs) as [st2 out2]. simpl in *.
  rewrite !filter_app, !length_app, Hs, Hd, IHs, IHd.
  split; [now destruct (opens e) | now destruct (is_message_stop e)].
Qed.

(** X1. Whatever the events, the handler enqueues one [tool_start] for each
    [content_block_start] of a tool type with a name, and one [done] for each
    [message_stop]: no more, no fewer. *)
Theorem one_start_per_opening_one_done_per_stop (evs : list RawEvent) :
  List.length (filter is_tool_start (translate evs))
  = List.length (filter opens evs)
  /\ List.length (filter is_done (translate evs))
     = List.length (filter is_message_stop evs).
Proof. apply run_counts. Qed.

Lemma held_initial : held initial = None.
Proof. reflexivity. Qed.

Lemma step_paired (st : ToolState) (e : RawEvent) (rest : list DownstreamEvent) :
  paired (held st) (snd (step st e) ++ rest)
  = paired (held (fst (step st e))) rest.
Proof.
  unfold held. destruct e as [b|d| | |ty]; simpl.
  - change (_ && truthy (block_name b)) with (opens_tool b).
    destruct (opens_tool b) eqn:Eb; simpl; [|reflexivity].
    apply TranslatorFacts.opens_tool_name, String.eqb_neq in Eb. now rewrite Eb.
  - destruct ((delta_type d =? "text_delta") && truthy (delta_text d));
      [reflexivity|].
    destruct ((delta_type d =? "input_json_delta")
              && truthy (delta_partial_json d)); reflexivity.
  - destruct (currentToolName st =? "") eqn:E; simpl; [now rewrite E|].
    now rewrite !String.eqb_refl.
  - reflexivity.
  - reflexivity.
Qed.


Lemma step_pending (st : ToolState) (e : RawEvent) (rest : list DownstreamEvent) :
  pending (held st) (snd (step st e) ++ rest)
  = pending (held (fst (step st e))) rest.
Proof.
  unfold held. destruct e as [b|d| | |ty]; simpl.
  - change (_ && truthy (block_name b)) with (opens_tool b).
    destruct (opens_tool b) eqn:Eb; simpl; [|reflexivity].
    apply TranslatorFacts.opens_tool_name, String.eqb_neq in Eb. now rewrite Eb.
  - destruct ((delta_type d =? "text_delta") && truthy (delta_text d));
      [reflexivity|].
    destruct ((delta_type d =? "input_json_delta")
              && truthy (delta_partial_json d)); reflexivity.
  - destruct (currentToolName st =? "") eqn:E; simpl; [now rewrite E|reflexivity].
  - reflexivity.
  - reflexivity.
Qed.

Lemma run_paired (evs : list RawEvent) (st : ToolState) :
  paired (held st) (snd (run st evs)) = true
  /\ pending (held st) (snd (run st evs)) = held (fst (run st evs)).
Proof.
  revert st. induction evs as [|e evs IH]; intros st; [now split|].
  simpl. pose proof (step_paired st e) as Hp. pose proof (step_pending st e) as Hq.
  destruct (step st e) as [st1 out1]. destruct (IH st1) as [IH1 IH2].
  destruct (run st1 evs) as [st2 out2]. simpl in *.
  now rewrite Hp, Hq.
Qed.

(** X2. In what the handler enqueues, whatever the events, every
    [tool_complete] closes the tool call of the latest [tool_start] and
    carries its name and its id, with no other [tool_start] or
    [tool_complete] in between; and the tool call the handler holds at the
    end is the one still pending in what it enqueued. *)
Theorem completes_pair_with_latest_start (evs : list RawEvent) :
  paired None (translate evs) = true
  /\ pending None (translate evs) = held (state_after evs).
Proof. exact (run_paired evs initial). Qed.

Lemma paired_counts (i : string) (out : list DownstreamEvent) :
  forall open,
    paired open out = true ->
    List.length (filter (completes_id i) out)
    <= List.length (filter (starts_id i) out)
       + match open with
         | Some (_, j) => if j =? i then 1 else 0
         | None => 0
         end.
Proof.
  induction out as [|ev out IH]; intros open Hp; simpl; [lia|].
  destruct ev as [c|n j|n j inp| |m]; simpl in *;
    try (now apply IH).
  - apply IH in Hp. simpl in Hp. destruct (j =? i); simpl; lia.
  - destruct open as [[n' j']|]; [|discriminate].
    apply andb_prop in Hp as [Hnj Hp]. apply andb_prop in Hnj as [_ Hj].
    apply String.eqb_eq in Hj. subst j'. apply IH in Hp.
    destruct (j =? i); simpl in *; lia.
Qed.

(** X3. For every id and every raw event sequence, the handler never
    enqueues more [tool_complete] events with that id than [tool_start]
    events with that id. *)
Theorem no_more_completes_than_starts (evs : list RawEvent) (i : string) :
  List.length (filter (completes_id i) (translate evs))
  <= List.length (filter (starts_id i) (translate evs)).
Proof.
  pose proof (paired_counts i (translate evs) None
                (proj1 (run_paired evs initial))) as H.
  simpl in H. lia.
Qed.

Lemma step_passed_over (st : ToolState) (e : RawEvent) :
  passed_over e = true -> step st e = (st, []).
Proof.
  destruct e as [b|d| | |ty]; simpl; try discriminate; try reflexivity.
  - change (_ && truthy (block_name b)) with (opens_tool b).
    now intros ->%negb_true_iff.
  - intros H. apply andb_prop in H as [H1 H2].
    apply negb_true_iff in H1, H2. now rewrite H1, H2.
Qed.

(** X4. Events of other types, [content_block_start] events that open no
    tool call (a text block, a tool block without a name) and deltas that
    carry neither text for a text delta nor JSON text for a JSON delta are
    passed over: taking them out of a sequence changes neither what is
    enqueued nor the final state, from any state. *)
Theorem passed_over_events_change_nothing (evs : list RawEvent) (st : ToolState) :
  run st (filter (fun e => negb (passed_over e)) evs) = run st evs.
Proof.
  revert st. induction evs as [|e evs IH]; intros st; [reflexivity|].
  simpl. destruct (passed_over e) eqn:E; simpl.
  - rewrite (step_passed_over st e E), IH. now destruct (run st evs).
  - destruct (step st e) as [st1 out1]. now rewrite IH.
Qed.

End PairingFacts.

(** ** More on the endpoint *)

Module AnswersFacts.

Section Statuses.
Variable TypeError_message : TypeFault -> string.

Lemma convert_no_null (items : list JSON) :
  forallb (fun v => negb (is_null v)) items = true ->
  convert TypeError_message items = Returns (map message_of items).
Proof.
  induction items as [|msg items IH]; simpl; [reflexivity|].
  intros H. apply andb_prop in H as [Hmsg Hitems]. rewrite (IH Hitems).
  now destruct msg.
Qed.

Lemma convert_null (items : list JSON) :
  forallb (fun v => negb (is_null v)) items = false ->
  exists e, convert TypeError_message items = Raises e.
Proof.
  induction items as [|msg items IH]; simpl; [discriminate|].
  destruct msg; simpl; try (now eexists);
    intros H; destruct (IH H) as [e ->]; now eexists.
Qed.

(** X5. The handler answers 200 exactly when the body was read and is an
    object whose [messages] is an array that is not empty and holds no
    [null], and the client could be constructed. Whenever that is so, the
    answer is the event stream: the provider is asked once, with one message
    per element of [messages] (its [role] and [content]) and with [mcpUrl],
    or the default url when [mcpUrl] is missing or falsy; the response
    carries the three event-stream headers and what [start] enqueues for the
    provider's stream. *)
Theorem streams_exactly_for_valid_requests (w : World) :
  let valid fs items :=
    request_json w = Returns (JObject fs)
    /\ field "messages" fs = Some (JArray items)
    /\ items <> []
    /\ forallb (fun v => negb (is_null v)) items = true
    /\ new_Anthropic w = Returns tt in
  (status_of (fst (POST TypeError_message w)) = 200 <-> exists fs items, valid fs items)
  /\ (forall fs items,
        valid fs items ->
        let request :=
          {| messages := map message_of items;
             mcp_url := final_url (field "mcpUrl" fs) |} in
        POST TypeError_message w =
        (StreamResponse 200
           [("Content-Type", "text/event-stream"); ("Cache-Control", "no-cache");
            ("Connection", "keep-alive")]
           (start (messages_stream w request)),
         [request])).
Proof.
  cbv zeta.
  assert (Hwhen : forall fs items,
             request_json w = Returns (JObject fs)
             /\ field "messages" fs = Some (JArray items)
             /\ items <> []
             /\ forallb (fun v => negb (is_null v)) items = true
             /\ new_Anthropic w = Returns tt ->
             POST TypeError_message w =
             (StreamResponse 200 stream_headers
                (start (messages_stream w
                          {| messages := map message_of items;
                             mcp_url := final_url (field "mcpUrl" fs) |})),
              [{| messages := map message_of items;
                  mcp_url := final_url (field "mcpUrl" fs) |}])).
  { intros fs items (Hb & Hm & Hne & Hnull & Hc).
    unfold POST, setup. rewrite Hb. cbn [bind destructure]. rewrite Hm.
    destruct items as [|x items']; [now elim Hne|].
    cbn [falsy length_is_zero orb]. rewrite Hc. cbn [bind map_messages].
    rewrite (convert_no_null _ Hnull). reflexivity. }
  split; [split|].
  - unfold POST, setup.
    destruct (request_json w) as [body|e]; [|discriminate].
    destruct body as [|b|m e|str|l|fs]; try discriminate. simpl.
    destruct (field "messages" fs) as [msgs|] eqn:Em; [|discriminate].
    destruct (falsy (Some msgs) || length_is_zero (Some msgs)) eqn:Eok;
      [discriminate|].
    destruct (new_Anthropic w) as [[]|e]; [|discriminate]. simpl.
    destruct msgs as [|b|m e|str|items|fs']; try discriminate.
    destruct (forallb (fun v => negb (is_null v)) items) eqn:En.
    + intros _. exists fs, items.
      split; [reflexivity|]. split; [exact Em|].
      split; [intros ->; discriminate|]. split; [exact En|]. reflexivity.
    + destruct (convert_null items En) as [e ->]. discriminate.
  - intros (fs & items & Hvalid). now rewrite (Hwhen fs items Hvalid).
  - exact Hwhen.
Qed.

(** X6. The handler answers 400 exactly when the body was read, is not
    [null], and its [messages] is missing or falsy ([null], [false], a
    number that reads as zero, the empty string) or has a [length] equal to
    0; a body that is no object (a number, a string, an array) has no
    [messages] and is answered 400 too. Whenever that is so, the answer is
    the JSON body [{ error: 'Messages are required' }] with status 400, and
    the provider is not asked. *)
Theorem rejects_exactly_requests_without_messages (w : World) :
  let without_messages body :=
    request_json w = Returns body
    /\ body <> JNull
    /\ falsy (prop "messages" body) || length_is_zero (prop "messages" body) = true in
  (status_of (fst (POST TypeError_message w)) = 400 <-> exists body, without_messages body)
  /\ (forall body,
        without_messages body ->
        POST TypeError_message w =
        (JsonResponse 400 (JObject [("error", JString "Messages are required")]), [])).
Proof.
  cbv zeta.
  assert (Hwhen : forall body,
             request_json w = Returns body
             /\ body <> JNull
             /\ falsy (prop "messages" body) || length_is_zero (prop "messages" body)
                = true ->
             POST TypeError_message w =
             (JsonResponse 400 (JObject [("error", JString "Messages are required")]),
              [])).
  { intros body (Hb & Hnn & Hm). unfold POST, setup. rewrite Hb.
    destruct body as [|b|m e|str|l|fs]; try reflexivity; [now elim Hnn|].
    cbn [bind destructure]. cbn [prop] in Hm. now rewrite Hm. }
  split; [split|].
  - unfold POST, setup.
    destruct (request_json w) as [body|e]; [|discriminate].
    destruct body as [|b|m e|str|l|fs]; try discriminate; simpl;
      try (intros _; eexists; repeat split; discriminate).
    destruct (falsy (field "messages" fs) || length_is_zero (field "messages" fs))
      eqn:Eok.
    + intros _. exists (JObject fs). repeat split; [discriminate | exact Eok].
    + destruct (new_Anthropic w) as [[]|e]; [|discriminate]. simpl.
      destruct (map_messages TypeError_message (field "messages" fs));
        discriminate.
  - intros (body & Hwithout). now rewrite (Hwhen body Hwithout).
  - exact Hwhen.
Qed.

End Statuses.

Lemma streams_exactly_for_valid_requests_witness :
  let w :=
    {| request_json :=
         Returns (JObject [("messages",
                            JArray [JObject [("role", JString "user");
                                             ("content", JString "hi")]])]);
       new_Anthropic := Returns tt;
       messages_stream := fun _ => {| events := [message_stop]; ending := Exhausted |} |} in
  POST (fun _ => "TypeError") w =
  (StreamResponse 200
     [("Content-Type", "text/event-stream"); ("Cache-Control", "no-cache");
      ("Connection", "keep-alive")]
     {| enqueued := [done]; closed := true |},
   [{| messages := [{| role := Some (JString "user");
                       message_content := Some (JString "hi") |}];
       mcp_url := JString DEFAULT_MCP_URL |}]).
Proof.
  intros w.
  apply (proj2 (streams_exactly_for_valid_requests (fun _ => "TypeError") w)
           [("messages", JArray [JObject [("role", JString "user");
                                          ("content", JString "hi")]])]
           [JObject [("role", JString "user"); ("content", JString "hi")]]).
  repeat split. discriminate.
Defined.

Lemma rejects_exactly_requests_without_messages_witness :
  let w :=
    {| request_json := Returns (JObject [("messages", JNumber 1 (-400))]);
       new_Anthropic := Returns tt;
       messages_stream := fun _ => {| events := []; ending := Exhausted |} |} in
  POST (fun _ => "TypeError") w =
  (JsonResponse 400 (JObject [("error", JString "Messages are required")]), []).
Proof.
  intros w.
  apply (proj2 (rejects_exactly_requests_without_messages (fun _ => "TypeError") w)
           (JObject [("messages", JNumber 1 (-400))])).
  split; [reflexivity|]. split; [discriminate|]. vm_compute. reflexivity.
Defined.

End AnswersFacts.

(** ** More on the reading loop *)

Module EntriesFacts.

Lemma project_app (frames more : list DownstreamEvent) :
  project (frames ++ more) = fold_left handle more (project frames).
Proof. unfold project. apply fold_left_app. Qed.

Lemma fold_handle_content (frames : list DownstreamEvent) (st : Reading) :
  currentContent (fold_left handle frames st)
  = currentContent st ++ concat_all (text_contents frames).
Proof.
  revert st. induction frames as [|ev frames IH]; intros st; simpl.
  - now rewrite append_empty_r.
  - rewrite IH. destruct ev; simpl; try reflexivity.
    unfold text_contents. simpl. now rewrite append_assoc.
Qed.

Lemma fold_handle_mirrors (frames : list DownstreamEvent) (st : Reading) :
  mirrors st ->
  filter is_error frames = [] ->
  mirrors (fold_left handle frames st).
Proof.
  revert st. induction frames as [|ev frames IH]; intros st Hm Hno; [exact Hm|].
  simpl. destruct ev; simpl in Hno; try discriminate; apply IH; try exact Hno;
    try reflexivity; exact Hm.
Qed.

Lemma project_content (frames : list DownstreamEvent) :
  currentContent (project frames) = concat_all (text_contents frames).
Proof. unfold project. now rewrite fold_handle_content. Qed.

Lemma project_shown (frames : list DownstreamEvent) :
  filter is_error frames = [] ->
  shown (project frames)
  = {| content := concat_all (text_contents frames);
       toolCalls := Some (currentToolCalls (project frames)) |}.
Proof.
  intros Hno. rewrite <- project_content.
  apply (fold_handle_mirrors frames reading_start); [reflexivity | exact Hno].
Qed.

(** X7. The text the loop accumulates is the concatenation of the contents of
    the text frames, in order, whatever other frames come in between; and
    when no error frame came, the assistant message shown has exactly that
    text and the loop's list of tool calls. *)
Theorem shown_text_is_the_text_frames (frames : list DownstreamEvent) :
  currentContent (project frames) = concat_all (text_contents frames)
  /\ (filter is_error frames = [] ->
      shown (project frames)
      = {| content := concat_all (text_contents frames);
           toolCalls := Some (currentToolCalls (project frames)) |}).
Proof. split; [apply project_content | apply project_shown]. Qed.

Lemma shown_text_is_the_text_frames_witness :
  shown (project [text "a"; tool_start "t" "1"; text "b"; done])
  = {| content := concat_all (text_contents [text "a"; tool_start "t" "1"; text "b"; done]);
       toolCalls :=
         Some (currentToolCalls
                 (project [text "a"; tool_start "t" "1"; text "b"; done])) |}.
Proof.
  apply (proj2 (shown_text_is_the_text_frames
                  [text "a"; tool_start "t" "1"; text "b"; done])).
  reflexivity.
Defined.

(** X8. From the provider's events to the page: when the frames the route
    enqueues for a raw event sequence reach the loop as they are, the
    assistant message shown has, as its text, the concatenation of all the
    text fragments of the sequence in arrival order. *)
Theorem page_text_is_the_provider_text (evs : list RawEvent) :
  content (shown (project (translate evs))) = concat_all (text_fragments evs).
Proof.
  rewrite project_shown by apply TranslatorFacts.run_no_error. simpl.
  unfold translate. rewrite TranslatorFacts.run_text_contents.
  apply concat_all_nonempty.
Qed.


(** *** The entries of the tool list *)

Lemma handle_entry_kept (st : Reading) (ev : DownstreamEvent) (k : nat) (tc : ToolCall) :
  nth_error (currentToolCalls st) k = Some tc ->
  exists tc',
    nth_error (currentToolCalls (handle st ev)) k = Some tc'
    /\ tc_name tc' = tc_name tc
    /\ tc_id tc' = tc_id tc
    /\ (tc_status tc = complete -> tc_status tc' = complete).
Proof.
  intros Hk. destruct ev as [c|n i|n i inp| |m]; simpl;
    try (exists tc; now repeat split).
  - exists tc. rewrite nth_error_app1 by (apply nth_error_Some; congruence).
    now repeat split.
  - rewrite nth_error_map, Hk. simpl.
    destruct (matches n i tc); eexists; repeat split; auto.
Qed.

Lemma fold_handle_entry_kept (more : list DownstreamEvent) :
  forall (st : Reading) (k : nat) (tc : ToolCall),
    nth_error (currentToolCalls st) k = Some tc ->
    exists tc',
      nth_error (currentToolCalls (fold_left handle more st)) k = Some tc'
      /\ tc_name tc' = tc_name tc
      /\ tc_id tc' = tc_id tc
      /\ (tc_status tc = complete -> tc_status tc' = complete).
Proof.
  induction more as [|ev more IH]; intros st k tc Hk; simpl.
  - exists tc. now repeat split.
  - destruct (handle_entry_kept st ev k tc Hk) as (tc1 & H1 & Hn1 & Hi1 & Hs1).
    destruct (IH _ k tc1 H1) as (tc2 & H2 & Hn2 & Hi2 & Hs2).
    exists tc2. repeat split; try congruence. auto.
Qed.

(** X9. An entry of the tool list stays where it is: whatever frames follow,
    the entry at a position is still at that position with the same name and
    the same id, and once it is complete it stays complete. *)
Theorem entries_are_kept (frames more : list DownstreamEvent) (k : nat) (tc : ToolCall) :
  nth_error (currentToolCalls (project frames)) k = Some tc ->
  exists tc',
    nth_error (currentToolCalls (project (frames ++ more))) k = Some tc'
    /\ tc_name tc' = tc_name tc
    /\ tc_id tc' = tc_id tc
    /\ (tc_status tc = complete -> tc_status tc' = complete).
Proof. rewrite project_app. apply fold_handle_entry_kept. Qed.

Lemma entries_are_kept_witness :
  exists tc',
    nth_error
      (currentToolCalls
         (project ([tool_start "search" "t1"]
                     ++ [text "x"; tool_complete "search" "t1" JNull; tool_start "b" ""])))
      0 = Some tc'
    /\ tc_name tc' = "search"
    /\ tc_id tc' = Some "t1"
    /\ (running = complete -> tc_status tc' = complete).
Proof.
  exact (entries_are_kept [tool_start "search" "t1"]
           [text "x"; tool_complete "search" "t1" JNull; tool_start "b" ""]
           0 {| tc_name := "search"; tc_id := Some "t1"; tc_input := None;
                tc_status := running |} eq_refl).
Defined.

Lemma handle_names (st : Reading) (ev : DownstreamEvent) :
  map tc_name (currentToolCalls (handle st ev))
  = (map tc_name (currentToolCalls st) ++ somes [start_name ev])%list.
Proof.
  destruct ev as [c|n i|n i inp| |m]; simpl; rewrite ?app_nil_r; try reflexivity.
  - now rewrite map_app.
  - rewrite map_map. apply map_ext. intros tc. now destruct (matches n i tc).
Qed.

Lemma handle_entries_ok (st : Reading) (ev : DownstreamEvent) :
  forallb entry_ok (currentToolCalls st) = true ->
  forallb entry_ok (currentToolCalls (handle st ev)) = true.
Proof.
  intros Hok. destruct ev as [c|n i|n i inp| |m]; simpl; try exact Hok.
  - rewrite forallb_app, Hok. simpl. unfold entry_ok. simpl.
    now destruct (i =? "") eqn:E; simpl; [|rewrite E].
  - rewrite forallb_forall in *. intros tc' Hin.
    apply in_map_iff in Hin as (tc & <- & Hin). specialize (Hok tc Hin).
    destruct (matches n i tc); [|exact Hok].
    unfold entry_ok in *. simpl. apply andb_prop in Hok as [Hid _].
    now rewrite Hid.
Qed.

Lemma fold_handle_names (frames : list DownstreamEvent) (st : Reading) :
  map tc_name (currentToolCalls (fold_left handle frames st))
  = (map tc_name (currentToolCalls st) ++ start_names frames)%list
  /\ (forallb entry_ok (currentToolCalls st) = true ->
      forallb entry_ok (currentToolCalls (fold_left handle frames st)) = true).
Proof.
  revert st. induction frames as [|ev frames IH]; intros st; simpl.
  - now rewrite app_nil_r.
  - destruct (IH (handle st ev)) as [IHn IHok]. split.
    + rewrite IHn, handle_names. unfold start_names. simpl.
      rewrite <- app_assoc. f_equal. now destruct (start_name ev).
    + intros Hok. now apply IHok, handle_entries_ok.
Qed.

(** X10. The tool list has one entry for each [tool_start] frame, in the
    order of the frames and with their names, whatever other frames came.
    Every entry has an id that is not empty (the frame's, or [tool-N] for a
    frame without one), and an entry is running exactly when it has no
    input attached. *)
Theorem one_entry_per_tool_start (frames : list DownstreamEvent) :
  map tc_name (currentToolCalls (project frames)) = start_names frames
  /\ forallb entry_ok (currentToolCalls (project frames)) = true.
Proof.
  destruct (fold_handle_names frames reading_start) as [Hn Hok].
  split; [exact Hn | now apply Hok].
Qed.

(** X11. A tool call that is started with an id and later completed with the
    same id shows as complete with the input of that completion, at the place
    where it was appended, with the name it started with: whatever frames came
    before, in between and whatever name the completion carries. *)
Theorem started_then_completed_shows_complete
        (pre mid : list DownstreamEvent) (name name' i : string) (input : JSON) :
  i <> "" ->
  nth_error
    (currentToolCalls
       (project (pre ++ tool_start name i :: mid ++ [tool_complete name' i input])))
    (List.length (currentToolCalls (project pre)))
  = Some {| tc_name := name; tc_id := Some i; tc_input := Some input;
            tc_status := complete |}.
Proof.
  intros Hi.
  replace (pre ++ tool_start name i :: mid ++ [tool_complete name' i input])%list
    with ((pre ++ [tool_start name i]) ++ mid ++ [tool_complete name' i input])%list
    by (now rewrite <- app_assoc).
  rewrite app_assoc, ClientFacts.project_snoc, !project_app.
  set (st0 := project pre).
  assert (H0 : nth_error (currentToolCalls (fold_left handle [tool_start name i] st0))
                 (List.length (currentToolCalls st0))
               = Some {| tc_name := name; tc_id := Some i; tc_input := None;
                         tc_status := running |}).
  { simpl. rewrite nth_error_app2, Nat.sub_diag by lia. simpl.
    apply String.eqb_neq in Hi. now rewrite Hi. }
  destruct (fold_handle_entry_kept mid _ _ _ H0) as (tc & Hk & Hn & Hid & _).
  simpl in Hn, Hid.
  set (st1 := fold_left handle mid (fold_left handle [tool_start name i] st0)) in *.
  simpl. rewrite nth_error_map, Hk. simpl.
  rewrite (proj2 (ClientFacts.matches_by_id name' i tc Hi) Hid).
  unfold completed. now rewrite Hn, Hid.
Qed.

Lemma started_then_completed_shows_complete_witness :
  nth_error
    (currentToolCalls
       (project ([tool_start "a" ""] ++ tool_start "search" "t1"
                   :: [text "x"] ++ [tool_complete "search" "t1" (JObject [])])))
    (List.length (currentToolCalls (project [tool_start "a" ""])))
  = Some {| tc_name := "search"; tc_id := Some "t1"; tc_input := Some (JObject []);
            tc_status := complete |}.
Proof.
  apply started_then_completed_shows_complete. discriminate.
Defined.

End EntriesFacts.

(** ** Frames written by the route and read by the page *)

Module WireFacts.

Local Abbreviation chars := list_ascii_of_string.

Lemma chars_app (a b : string) : chars (a ++ b) = (chars a ++ chars b)%list.
Proof. induction a as [|c a IH]; simpl; [reflexivity | now rewrite IH]. Qed.

(** Reading back one written character. *)
Lemma escape_char_read (c : ascii) (rest acc : list ascii) :
  string_body (chars (escape_char c) ++ rest) acc = string_body rest (c :: acc).
Proof.
  destruct c as [[] [] [] [] [] [] [] []]; reflexivity.
Qed.

Lemma escape_read (s : string) :
  forall rest acc,
    string_body (chars (escape s) ++ quote :: rest) acc
    = Some (string_of_list_ascii (rev acc ++ chars s), rest).
Proof.
  induction s as [|c s IH]; intros rest acc.
  - simpl. now rewrite app_nil_r.
  - change (escape (String c s)) with (escape_char c ++ escape s).
    rewrite chars_app, <- app_assoc, escape_char_read, IH. simpl.
    now rewrite <- app_assoc.
Qed.

Lemma quote_string_chars (s : string) (rest : list ascii) :
  (chars (quote_string s) ++ rest)%list
  = quote :: (chars (escape s) ++ quote :: rest)%list.
Proof.
  unfold quote_string. simpl. rewrite chars_app, <- app_assoc. reflexivity.
Qed.

Lemma quote_string_read (s : string) (rest : list ascii) :
  string_body (chars (escape s) ++ quote :: rest) [] = Some (s, rest).
Proof.
  rewrite escape_read. simpl. now rewrite string_of_list_ascii_of_string.
Qed.

Lemma escape_char_no_newline (c : ascii) : has_newline (escape_char c) = false.
Proof.
  destruct c as [[] [] [] [] [] [] [] []]; reflexivity.
Qed.

Lemma has_newline_app (a b : string) :
  has_newline (a ++ b) = has_newline a || has_newline b.
Proof.
  induction a as [|c a IH]; simpl; [reflexivity|].
  now rewrite IH, orb_assoc.
Qed.

Lemma escape_no_newline (s : string) : has_newline (escape s) = false.
Proof.
  induction s as [|c s IH]; simpl; [reflexivity|].
  now rewrite has_newline_app, escape_char_no_newline, IH.
Qed.

Lemma quote_string_no_newline (s : string) : has_newline (quote_string s) = false.
Proof.
  unfold quote_string. simpl. now rewrite has_newline_app, escape_no_newline.
Qed.

Lemma split_lines_no_newline (s : string) :
  has_newline s = false -> split_lines s = [s].
Proof.
  induction s as [|c s IH]; simpl; [reflexivity|].
  intros H. apply orb_false_elim in H as [Hc Hs]. now rewrite Hc, (IH Hs).
Qed.


Lemma skip_ws_head (c : ascii) (t : list ascii) :
  is_ws c = false -> skip_ws (c :: t) = c :: t.
Proof. intros H. simpl. now rewrite H. Qed.

Lemma set_field_new (k : string) (v : JSON) (acc : list (string * JSON)) :
  existsb (String.eqb k) (map fst acc) = false ->
  set_field k v acc = (acc ++ [(k, v)])%list.
Proof.
  induction acc as [|[k' v'] acc IH]; simpl; [reflexivity|].
  intros H. apply orb_false_elim in H as [Hk Hacc].
  now rewrite Hk, (IH Hacc).
Qed.

Lemma distinct_middle (l1 l2 : list string) (k : string) :
  distinct (l1 ++ k :: l2) = true -> existsb (String.eqb k) l1 = false.
Proof.
  induction l1 as [|x l1 IH]; simpl; [reflexivity|].
  intros H. apply andb_prop in H as [Hx Hd]. rewrite (IH Hd), orb_false_r.
  apply negb_true_iff in Hx. rewrite existsb_app in Hx.
  apply orb_false_elim in Hx as [_ Hx]. simpl in Hx.
  apply orb_false_elim in Hx as [Hx _]. now rewrite String.eqb_sym.
Qed.

Section Values.
Variable number_text : Z -> Z -> string.

Local Abbreviation text_of := (JSON_stringify number_text).

Lemma stringify_array (items : list JSON) :
  text_of (JArray items) = "[" ++ items_text number_text items ++ "]".
Proof. reflexivity. Qed.

Lemma stringify_object (fs : list (string * JSON)) :
  text_of (JObject fs) = "{" ++ members_text number_text fs ++ "}".
Proof. reflexivity. Qed.

(** The first character of the text of a value. *)
Lemma text_head (v : JSON) :
  printable v = true ->
  exists c t,
    chars (text_of v) = c :: t
    /\ is_ws c = false
    /\ Ascii.eqb c "]" = false
    /\ Ascii.eqb c "}" = false.
Proof.
  destruct v as [|b|m e|s|items|fs]; try discriminate; intros _.
  - now exists "n"%char, (chars "ull").
  - destruct b; [now exists "t"%char, (chars "rue") | now exists "f"%char, (chars "alse")].
  - exists quote, (chars (escape s ++ String quote "")). now repeat split.
  - rewrite stringify_array. eexists _, _. now repeat split.
  - rewrite stringify_object. eexists _, _. now repeat split.
Qed.

Lemma items_text_cons (x : JSON) (items : list JSON) :
  items_text number_text (x :: items)
  = text_of x
    ++ match items with
       | [] => EmptyString
       | _ :: _ => "," ++ items_text number_text items
       end.
Proof. reflexivity. Qed.

Lemma items_text_length (x : JSON) (items : list JSON) :
  List.length (chars (items_text number_text (x :: items)))
  = List.length (chars (text_of x))
    + match items with
      | [] => 0
      | _ :: _ => 1 + List.length (chars (items_text number_text items))
      end.
Proof.
  cbn [items_text]. rewrite chars_app, length_app.
  destruct items; [reflexivity|]. now rewrite chars_app, length_app.
Qed.

Lemma items_text_bounds (items : list JSON) :
  forallb printable items = true ->
  List.length items <= List.length (chars (items_text number_text items))
  /\ Forall (fun x => List.length (chars (text_of x))
                      <= List.length (chars (items_text number_text items)))
            items.
Proof.
  induction items as [|x items IH]; [simpl; split; [lia | constructor]|].
  intros H. simpl in H. apply andb_prop in H as [Hx Hitems].
  destruct (IH Hitems) as [IHn IHall].
  destruct (text_head x Hx) as (c & t & Ht & _).
  rewrite items_text_length. split.
  - rewrite Ht. destruct items; simpl in *; lia.
  - constructor; [lia|].
    eapply Forall_impl; [|exact IHall]. simpl. intros y Hy.
    destruct items; simpl in *; lia.
Qed.


Lemma members_text_cons (k : string) (x : JSON) (fs : list (string * JSON)) :
  members_text number_text ((k, x) :: fs)
  = quote_string k ++ ":" ++ text_of x
    ++ match fs with
       | [] => EmptyString
       | _ :: _ => "," ++ members_text number_text fs
       end.
Proof. reflexivity. Qed.

Lemma members_text_length (k : string) (x : JSON) (fs : list (string * JSON)) :
  List.length (chars (members_text number_text ((k, x) :: fs)))
  = List.length (chars (quote_string k)) + 1 + List.length (chars (text_of x))
    + match fs with
      | [] => 0
      | _ :: _ => 1 + List.length (chars (members_text number_text fs))
      end.
Proof.
  rewrite members_text_cons, !chars_app, !length_app.
  destruct fs; [simpl; lia|]. rewrite chars_app, length_app. simpl. lia.
Qed.

Lemma members_text_bounds (fs : list (string * JSON)) :
  List.length fs <= List.length (chars (members_text number_text fs))
  /\ Forall (fun kv => List.length (chars (text_of (snd kv)))
                       <= List.length (chars (members_text number_text fs)))
            fs.
Proof.
  induction fs as [|[k x] fs [IHn IHall]]; [simpl; split; [lia | constructor]|].
  rewrite members_text_length. split.
  - destruct fs; simpl in *; lia.
  - constructor; [simpl; lia|].
    eapply Forall_impl; [|exact IHall]. simpl. intros y Hy.
    destruct fs; simpl in *; lia.
Qed.

Section Composite.
Variable value : list ascii -> Parse (JSON * list ascii).

Lemma parse_elements_more (n : nat) (acc : list JSON) (s r : list ascii) (v : JSON) :
  value s = Parsed (v, ","%char :: r) ->
  parse_elements value (S n) acc s = parse_elements value n (v :: acc) r.
Proof. intros H. simpl. now rewrite H. Qed.

Lemma parse_elements_last (n : nat) (acc : list JSON) (s r : list ascii) (v : JSON) :
  value s = Parsed (v, "]"%char :: r) ->
  parse_elements value (S n) acc s = Parsed (JArray (rev (v :: acc)), r).
Proof. intros H. simpl. now rewrite H. Qed.

Lemma parse_members_more (n : nat) (acc : list (string * JSON)) (k : string)
      (s r : list ascii) (v : JSON) :
  value s = Parsed (v, ","%char :: r) ->
  parse_members value (S n) acc
    (quote :: chars (escape k) ++ quote :: ":"%char :: s)
  = parse_members value n (set_field k v acc) r.
Proof.
  intros H. cbn [parse_members]. rewrite skip_ws_head by reflexivity.
  rewrite Ascii.eqb_refl, quote_string_read, skip_ws_head by reflexivity.
  simpl. now rewrite H.
Qed.

Lemma parse_members_last (n : nat) (acc : list (string * JSON)) (k : string)
      (s r : list ascii) (v : JSON) :
  value s = Parsed (v, "}"%char :: r) ->
  parse_members value (S n) acc
    (quote :: chars (escape k) ++ quote :: ":"%char :: s)
  = Parsed (JObject (set_field k v acc), r).
Proof.
  intros H. cbn [parse_members]. rewrite skip_ws_head by reflexivity.
  rewrite Ascii.eqb_refl, quote_string_read, skip_ws_head by reflexivity.
  simpl. now rewrite H.
Qed.

Lemma elements_read (items : list JSON) :
  items <> [] ->
  Forall (reads_back number_text value) items ->
  forall n acc rest,
    List.length items <= n ->
    parse_elements value n acc
      (chars (items_text number_text items) ++ "]"%char :: rest)
    = Parsed (JArray (rev acc ++ items), rest).
Proof.
  induction items as [|x items IH]; [contradiction|].
  intros _ Hall n acc rest Hn. inversion Hall as [|? ? Hx Hrest]; subst.
  destruct n as [|n]; [simpl in Hn; lia|].
  destruct items as [|y items].
  - rewrite items_text_cons, append_empty_r.
    rewrite (parse_elements_last n acc _ rest x) by apply Hx.
    reflexivity.
  - rewrite items_text_cons, chars_app, <- app_assoc.
    rewrite (parse_elements_more n acc _
               (chars (items_text number_text (y :: items)) ++ "]"%char :: rest) x)
      by apply Hx.
    rewrite IH; [|discriminate|exact Hrest|simpl in *; lia].
    simpl. now rewrite <- app_assoc.
Qed.

Lemma members_read (fs : list (string * JSON)) :
  fs <> [] ->
  Forall (fun kv => reads_back number_text value (snd kv)) fs ->
  forall n acc rest,
    List.length fs <= n ->
    distinct (map fst acc ++ map fst fs) = true ->
    parse_members value n acc
      (chars (members_text number_text fs) ++ "}"%char :: rest)
    = Parsed (JObject (acc ++ fs), rest).
Proof.
  induction fs as [|[k x] fs IH]; [contradiction|].
  intros _ Hall n acc rest Hn Hd. inversion Hall as [|? ? Hx Hrest]; subst.
  simpl in Hx.
  destruct n as [|n]; [simpl in Hn; lia|].
  assert (Hnew : set_field k x acc = (acc ++ [(k, x)])%list).
  { apply set_field_new. simpl in Hd. now apply distinct_middle in Hd. }
  rewrite members_text_cons, !chars_app, <- !app_assoc, quote_string_chars.
  change (chars ":" ++ ?l)%list with (":"%char :: l).
  destruct fs as [|kv fs].
  - rewrite (parse_members_last n acc k _ rest x) by apply Hx.
    now rewrite Hnew.
  - rewrite (parse_members_more n acc k _
               (chars (members_text number_text (kv :: fs)) ++ "}"%char :: rest) x)
      by apply Hx.
    rewrite Hnew, IH; [|discriminate|exact Hrest|simpl in *; lia|].
    + now rewrite <- app_assoc.
    + rewrite map_app, <- app_assoc. exact Hd.
Qed.

End Composite.


Lemma parse_value_string (f : nat) (s : string) (rest : list ascii) :
  parse_value (S f) (quote :: chars (escape s) ++ quote :: rest)
  = Parsed (JString s, rest).
Proof.
  cbn [parse_value]. rewrite skip_ws_head by reflexivity.
  simpl. now rewrite quote_string_read.
Qed.

Lemma parse_value_array (f : nat) (r t : list ascii) (c : ascii) :
  skip_ws r = c :: t ->
  Ascii.eqb c "]" = false ->
  parse_value (S f) ("["%char :: r)
  = parse_elements (parse_value f) (List.length r) [] r.
Proof.
  intros Hr Hc. cbn [parse_value]. rewrite skip_ws_head by reflexivity.
  simpl. now rewrite Hr, Hc.
Qed.

Lemma parse_value_object (f : nat) (r t : list ascii) (c : ascii) :
  skip_ws r = c :: t ->
  Ascii.eqb c "}" = false ->
  parse_value (S f) ("{"%char :: r)
  = parse_members (parse_value f) (List.length r) [] r.
Proof.
  intros Hr Hc. cbn [parse_value]. rewrite skip_ws_head by reflexivity.
  simpl. now rewrite Hr, Hc.
Qed.

(** The parser reads back the text of a printable value, whatever follows
    it, as soon as its bound exceeds the length of the text. *)
Lemma value_read (v : JSON) :
  printable v = true ->
  forall f rest,
    List.length (chars (text_of v)) < f ->
    parse_value f (chars (text_of v) ++ rest) = Parsed (v, rest).
Proof.
  induction v as [|b|m e|s|items IH|fs IH] using JSON_induction;
    intros Hp f rest Hf; (destruct f as [|f]; [lia|]).
  - reflexivity.
  - now destruct b.
  - discriminate.
  - change (text_of (JString s)) with (quote_string s).
    rewrite quote_string_chars. apply parse_value_string.
  - rewrite stringify_array in *.
    change (chars ("[" ++ ?a)) with ("["%char :: chars a) in *.
    rewrite chars_app in *. cbn [app]. rewrite <- app_assoc. cbn [chars app].
    simpl in Hp. rewrite length_cons, length_app in Hf. simpl in Hf.
    destruct items as [|x items]; [reflexivity|].
    destruct (items_text_bounds (x :: items) Hp) as [Hn Hall].
    assert (Hx : printable x = true) by (simpl in Hp; now apply andb_prop in Hp).
    destruct (text_head x Hx) as (c & t & Ht & Hws & Hc & _).
    erewrite parse_value_array.
    + apply elements_read; [discriminate| |rewrite length_app; lia].
      rewrite Forall_forall in *. intros y Hy rest'.
      apply IH; [exact Hy| |].
      * rewrite forallb_forall in Hp. now apply Hp.
      * specialize (Hall y Hy). cbv beta in Hall. lia.
    + rewrite items_text_cons, chars_app, Ht. cbn [app].
      now apply skip_ws_head.
    + exact Hc.
  - rewrite stringify_object in *.
    change (chars ("{" ++ ?a)) with ("{"%char :: chars a) in *.
    rewrite chars_app in *. cbn [app]. rewrite <- app_assoc. cbn [chars app].
    simpl in Hp. apply andb_prop in Hp as [Hd Hp].
    rewrite length_cons, length_app in Hf. simpl in Hf.
    destruct fs as [|[k x] fs]; [reflexivity|].
    destruct (members_text_bounds ((k, x) :: fs)) as [Hn Hall].
    erewrite parse_value_object.
    + apply members_read; [discriminate| |rewrite length_app; lia|exact Hd].
      rewrite Forall_forall in *. intros y Hy rest'.
      apply IH; [exact Hy| |].
      * rewrite forallb_forall in Hp. now apply Hp.
      * specialize (Hall y Hy). cbv beta in Hall. lia.
    + rewrite members_text_cons, chars_app, quote_string_chars.
      now apply skip_ws_head.
    + reflexivity.
Qed.

(** [JSON.parse(JSON.stringify(v))] is [v] for a printable [v]. *)
Lemma parse_stringify (v : JSON) :
  printable v = true -> JSON_parse (text_of v) = Some v.
Proof.
  intros Hp. unfold JSON_parse.
  pose proof (value_read v Hp (S (List.length (chars (text_of v)))) []) as H.
  rewrite app_nil_r in H. now rewrite H by lia.
Qed.


Lemma items_text_no_newline (items : list JSON) :
  Forall (fun x => has_newline (text_of x) = false) items ->
  has_newline (items_text number_text items) = false.
Proof.
  induction 1 as [|x items Hx _ IH]; [reflexivity|].
  rewrite items_text_cons, has_newline_app, Hx. simpl.
  destruct items; [reflexivity|]. exact IH.
Qed.

Lemma members_text_no_newline (fs : list (string * JSON)) :
  Forall (fun kv => has_newline (text_of (snd kv)) = false) fs ->
  has_newline (members_text number_text fs) = false.
Proof.
  induction 1 as [|[k x] fs Hx _ IH]; [reflexivity|].
  rewrite members_text_cons, !has_newline_app, quote_string_no_newline.
  simpl in *. rewrite Hx. simpl. destruct fs; [reflexivity|]. exact IH.
Qed.

(** The text of a printable value is one line. *)
Lemma text_no_newline (v : JSON) :
  printable v = true -> has_newline (text_of v) = false.
Proof.
  induction v as [|b|m e|s|items IH|fs IH] using JSON_induction; intros Hp.
  - reflexivity.
  - now destruct b.
  - discriminate.
  - apply quote_string_no_newline.
  - rewrite stringify_array. simpl. rewrite has_newline_app, orb_false_r.
    apply items_text_no_newline. simpl in Hp.
    rewrite Forall_forall in *. rewrite forallb_forall in Hp. auto.
  - rewrite stringify_object. simpl. rewrite has_newline_app, orb_false_r.
    apply members_text_no_newline. simpl in Hp. apply andb_prop in Hp as [_ Hp].
    rewrite Forall_forall in *. rewrite forallb_forall in Hp. auto.
Qed.

Lemma payload_printable (ev : DownstreamEvent) :
  event_printable ev = true -> printable (payload ev) = true.
Proof.
  destruct ev; simpl; try reflexivity. intros ->. reflexivity.
Qed.

(** One frame, read alone, gives the object it was written from. *)
Lemma decode_frame (ev : DownstreamEvent) :
  event_printable ev = true ->
  decode_chunk (encode number_text ev) = [payload ev].
Proof.
  intros Hp. apply payload_printable in Hp.
  unfold encode, frame.
  rewrite <- append_assoc, ClientFacts.decode_chunk_newline.
  change (decode_chunk newline) with (@nil JSON). rewrite app_nil_r.
  unfold decode_chunk.
  rewrite split_lines_no_newline by (simpl; now apply text_no_newline).
  unfold decode_line. simpl.
  replace (prefix "" (text_of (payload ev))) with true
    by (now destruct (text_of (payload ev))).
  now rewrite parse_stringify.
Qed.

Lemma decode_body (out : list DownstreamEvent) :
  forallb event_printable out = true ->
  decode_chunk (body_bytes number_text out) = map payload out.
Proof.
  induction out as [|ev out IH]; [reflexivity|].
  intros H. simpl in H. apply andb_prop in H as [Hev Hout].
  change (ev :: out) with ([ev] ++ out)%list at 1.
  rewrite ClientFacts.decode_between_frames, (IH Hout).
  change (body_bytes number_text [ev]) with (encode number_text ev ++ "").
  now rewrite append_empty_r, (decode_frame ev Hev).
Qed.

Lemma decode_bodies (groups : list (list DownstreamEvent)) :
  forallb (forallb event_printable) groups = true ->
  decode_events (map (body_bytes number_text) groups) = List.concat groups.
Proof.
  unfold decode_events, decode_reads.
  induction groups as [|out groups IH]; [reflexivity|].
  intros H. simpl in H. apply andb_prop in H as [Hout Hgroups].
  simpl. rewrite map_app, somes_app, (IH Hgroups), (decode_body out Hout).
  f_equal. clear. induction out as [|ev out IH]; [reflexivity|].
  simpl. now rewrite ClientFacts.event_of_payload, IH.
Qed.

End Values.


(** X12. What the route writes, the page reads: when the events of a response
    are written as frames and reach the loop in reads that each hold whole
    frames (however the frames are grouped into reads), the loop decodes
    exactly those events, in order. This holds for text, tool_start, done
    and error events with any strings in them (quotes, backslashes, newlines
    and control characters included), and for tool_complete events whose
    input holds no number and no key twice in an object. *)
Theorem frames_are_read_back
        (number_text : Z -> Z -> string) (groups : list (list DownstreamEvent)) :
  forallb (forallb event_printable) groups = true ->
  decode_events (map (body_bytes number_text) groups) = List.concat groups.
Proof. apply decode_bodies. Qed.

Lemma frames_are_read_back_witness :
  decode_events
    (map (body_bytes (fun _ _ => ""))
       [[tool_start "search" "t1"];
        [tool_complete "search" "t1" (JObject [("q", JArray [JString "x"; JNull])]);
         text (String "010" (js "say 'hi' \ ")); done]])
  = List.concat
      [[tool_start "search" "t1"];
       [tool_complete "search" "t1" (JObject [("q", JArray [JString "x"; JNull])]);
        text (String "010" (js "say 'hi' \ ")); done]].
Proof.
  apply frames_are_read_back. reflexivity.
Defined.

(** X13. From the provider to the page, through the wire: when what the
    route enqueues for a raw event sequence is written as frames, grouped
    into reads of whole frames in any way, and its tool inputs hold no
    number and no key twice, the loop ends in the state it reaches on the
    enqueued events themselves, and the text of the assistant message shown
    is the concatenation of the provider's text fragments. *)
Theorem page_shows_the_provider_text_through_the_wire
        (number_text : Z -> Z -> string) (evs : list RawEvent)
        (groups : list (list DownstreamEvent)) :
  List.concat groups = translate evs ->
  forallb event_printable (translate evs) = true ->
  project (decode_events (map (body_bytes number_text) groups))
  = project (translate evs)
  /\ content (shown (project (decode_events (map (body_bytes number_text) groups))))
     = concat_all (text_fragments evs).
Proof.
  intros Hg Hp.
  assert (Hd : decode_events (map (body_bytes number_text) groups) = translate evs).
  { rewrite <- Hg. apply decode_bodies. rewrite <- Hg in Hp.
    clear Hg. induction groups as [|g groups IH]; [reflexivity|].
    simpl in *. rewrite forallb_app in Hp. apply andb_prop in Hp as [Hg Hgs].
    now rewrite Hg, IH. }
  rewrite Hd. split; [reflexivity|].
  rewrite EntriesFacts.project_shown by apply TranslatorFacts.run_no_error.
  simpl. unfold translate. rewrite TranslatorFacts.run_text_contents.
  apply concat_all_nonempty.
Qed.

Lemma page_shows_the_provider_text_through_the_wire_witness :
  let evs :=
    [content_block_delta
       {| delta_type := "text_delta"; delta_text := Some "Hel";
          delta_partial_json := None |};
     content_block_delta
       {| delta_type := "text_delta"; delta_text := Some "lo";
          delta_partial_json := None |};
     message_stop] in
  content (shown (project (decode_events
                             (map (body_bytes (fun _ _ => ""))
                                [[text "Hel"]; [text "lo"; done]]))))
  = concat_all (text_fragments evs).
Proof.
  cbv zeta.
  apply (page_shows_the_provider_text_through_the_wire (fun _ _ => "")
           [content_block_delta
              {| delta_type := "text_delta"; delta_text := Some "Hel";
                 delta_partial_json := None |};
            content_block_delta
              {| delta_type := "text_delta"; delta_text := Some "lo";
                 delta_partial_json := None |};
            message_stop]
           [[text "Hel"]; [text "lo"; done]]); reflexivity.
Defined.

End WireFacts.

(** ** The expanded pills *)

Module PillsFacts.

Lemma set_has_delete (key k : string) (s : StringSet) :
  set_has k (set_delete key s) = negb (k =? key) && set_has k s.
Proof.
  unfold set_has, set_delete. induction s as [|x s IH]; simpl.
  - now rewrite andb_false_r.
  - destruct (String.eqb_spec x key) as [->|Hx]; simpl.
    + rewrite IH. destruct (String.eqb_spec k key); simpl; reflexivity.
    + rewrite IH. destruct (String.eqb_spec k x) as [->|Hk]; simpl.
      * apply String.eqb_neq in Hx. now rewrite Hx.
      * reflexivity.
Qed.

Lemma set_has_add (key k : string) (s : StringSet) :
  set_has k (set_add key s) = (k =? key) || set_has k s.
Proof.
  unfold set_add. destruct (set_has key s) eqn:E.
  - destruct (String.eqb_spec k key) as [->|_]; [now rewrite E | reflexivity].
  - unfold set_has. rewrite existsb_app. simpl.
    now rewrite orb_false_r, orb_comm.
Qed.

Lemma set_delete_NoDup (key : string) (s : StringSet) :
  NoDup s -> NoDup (set_delete key s).
Proof. apply NoDup_filter. Qed.

Lemma set_add_NoDup (key : string) (s : StringSet) :
  NoDup s -> NoDup (set_add key s).
Proof.
  intros Hs. unfold set_add. destruct (set_has key s) eqn:E; [exact Hs|].
  apply NoDup_app; [exact Hs | repeat constructor; intros [] |].
  intros x Hx [Heq|[]]. subst x. unfold set_has in E.
  assert (existsb (String.eqb key) s = true); [|congruence].
  apply existsb_exists. exists key. now rewrite String.eqb_refl.
Qed.

(** X14. Toggling a key flips whether that key is in the set of expanded
    pills and leaves every other key as it was, so toggling twice gives back
    a set with the same elements; and a set without repeated elements stays
    without them. *)
Theorem toggle_flips_one_key (key : string) (prev : StringSet) :
  set_has key (toggleToolExpanded key prev) = negb (set_has key prev)
  /\ (forall k, k <> key ->
                set_has k (toggleToolExpanded key prev) = set_has k prev)
  /\ (forall k,
         set_has k (toggleToolExpanded key (toggleToolExpanded key prev))
         = set_has k prev)
  /\ (NoDup prev -> NoDup (toggleToolExpanded key prev)).
Proof.
  assert (H1 : forall s, set_has key (toggleToolExpanded key s) = negb (set_has key s)).
  { intros s. unfold toggleToolExpanded. cbv zeta. destruct (set_has key s) eqn:E.
    - now rewrite set_has_delete, String.eqb_refl.
    - now rewrite set_has_add, String.eqb_refl. }
  assert (H2 : forall s k, k <> key ->
                           set_has k (toggleToolExpanded key s) = set_has k s).
  { intros s k Hk. apply String.eqb_neq in Hk.
    unfold toggleToolExpanded. cbv zeta. destruct (set_has key s).
    - now rewrite set_has_delete, Hk.
    - now rewrite set_has_add, Hk. }
  split; [apply H1|]. split; [apply H2|]. split.
  - intros k. destruct (String.eqb_spec k key) as [->|Hk].
    + now rewrite !H1, negb_involutive.
    + now rewrite !H2.
  - intros Hs. unfold toggleToolExpanded. cbv zeta. destruct (set_has key prev).
    + now apply set_delete_NoDup.
    + now apply set_add_NoDup.
Qed.

Lemma toggle_flips_one_key_witness :
  NoDup (toggleToolExpanded "1-0" ["0-0"; "1-0"; "1-1"]).
Proof.
  apply (toggle_flips_one_key "1-0" ["0-0"; "1-0"; "1-1"]).
  repeat constructor; simpl; intuition discriminate.
Defined.

Lemma string_of_uint_no_dash (d : Decimal.uint) :
  has_dash (NilEmpty.string_of_uint d) = false.
Proof. induction d; simpl; auto. Qed.

Lemma decimal_no_dash (n : nat) : has_dash (decimal n) = false.
Proof. apply string_of_uint_no_dash. Qed.

Lemma decimal_injective (n m : nat) : decimal n = decimal m -> n = m.
Proof.
  unfold decimal. intros H.
  assert (Hu : Nat.to_uint n = Nat.to_uint m).
  { apply (f_equal NilEmpty.uint_of_string) in H.
    rewrite !NilEmpty.usu in H. now injection H. }
  apply (f_equal Nat.of_uint) in Hu. now rewrite !DecimalNat.Unsigned.of_to in Hu.
Qed.

Lemma split_at_dash (a c b d : string) :
  has_dash a = false -> has_dash c = false ->
  a ++ "-" ++ b = c ++ "-" ++ d -> a = c /\ b = d.
Proof.
  revert c. induction a as [|x a IH]; intros c Ha Hc H.
  - destruct c as [|y c]; simpl in *.
    + now injection H.
    + injection H as Hy _. subst y. discriminate.
  - destruct c as [|y c]; simpl in *.
    + injection H as Hx _. subst x. discriminate.
    + injection H as -> H.
      apply orb_false_elim in Ha as [_ Ha]. apply orb_false_elim in Hc as [_ Hc].
      destruct (IH c Ha Hc H) as [-> ->]. now split.
Qed.

(** X15. The keys of the pills tell the pills apart: two pills have the same
    key only if they are the same tool call of the same message. So
    expanding or collapsing one pill changes no other pill. *)
Theorem pills_have_keys_of_their_own (m t m' t' : nat) (prev : StringSet) :
  (toolKey m t = toolKey m' t' -> m = m' /\ t = t')
  /\ ((m, t) <> (m', t') ->
      set_has (toolKey m' t') (toggleToolExpanded (toolKey m t) prev)
      = set_has (toolKey m' t') prev).
Proof.
  assert (Hinj : toolKey m t = toolKey m' t' -> m = m' /\ t = t').
  { unfold toolKey. intros H.
    apply split_at_dash in H as [Hm Ht]; try apply decimal_no_dash.
    split; now apply decimal_injective. }
  split; [exact Hinj|]. intros Hne.
  assert (Hk : toolKey m' t' <> toolKey m t).
  { intros H. symmetry in H. apply Hinj in H as [-> ->]. now elim Hne. }
  apply String.eqb_neq in Hk.
  unfold toggleToolExpanded. cbv zeta. destruct (set_has (toolKey m t) prev).
  - now rewrite set_has_delete, Hk.
  - now rewrite set_has_add, Hk.
Qed.

Lemma pills_have_keys_of_their_own_witness :
  set_has (toolKey 1 10) (toggleToolExpanded (toolKey 11 0) ["1-10"])
  = set_has (toolKey 1 10) ["1-10"].
Proof.
  apply (pills_have_keys_of_their_own 11 0 1 10 ["1-10"]). discriminate.
Defined.

End PillsFacts.

(** ** The markdown renderer *)

Module MarkdownFacts.

Lemma length_append (a b : string) :
  String.length (a ++ b) = String.length a + String.length b.
Proof. induction a as [|c a IH]; simpl; [reflexivity | now rewrite IH]. Qed.

Lemma after_stars_source (s rest : string) :
  after_stars s = Some rest -> s = "**" ++ rest.
Proof.
  destruct s as [|a [|b s]]; simpl; try discriminate.
  destruct (Ascii.eqb_spec a "*") as [->|]; [|discriminate].
  destruct (Ascii.eqb_spec b "*") as [->|]; [|discriminate].
  now intros [= ->].
Qed.

Lemma lazy_group_source (s : string) :
  forall group rest, lazy_group s = Some (group, rest) -> s = group ++ "**" ++ rest.
Proof.
  induction s as [|c s IH]; intros group rest; [discriminate|].
  cbn [lazy_group]. destruct (after_stars (String c s)) as [r|] eqn:E.
  - intros [= <- <-]. now apply after_stars_source.
  - destruct (dot_refuses (String c s)); [discriminate|].
    destruct (lazy_group s) as [[g r]|]; [|discriminate].
    intros [= <- <-]. simpl. f_equal. now apply IH.
Qed.

Lemma match_here_source (s group rest : string) :
  match_here s = Some (group, rest) ->
  s = "**" ++ group ++ "**" ++ rest /\ group <> "".
Proof.
  unfold match_here. destruct (after_stars s) as [[|c r]|] eqn:E; try discriminate.
  destruct (dot_refuses (String c r)); [discriminate|].
  destruct (lazy_group r) as [[g r']|] eqn:El; [|discriminate].
  intros [= <- <-]. apply after_stars_source in E. apply lazy_group_source in El.
  subst. split; [reflexivity | discriminate].
Qed.

(** What [bold_match] returns splits the string at a bold run that is not
    empty. *)
Lemma bold_match_source (s : string) :
  forall before group rest,
    bold_match s = Some (before, group, rest) ->
    s = before ++ "**" ++ group ++ "**" ++ rest /\ group <> "".
Proof.
  induction s as [|c s IH]; intros before group rest.
  - cbn. discriminate.
  - cbn [bold_match]. destruct (match_here (String c s)) as [[g r]|] eqn:E.
    + intros [= <- <- <-]. now apply match_here_source.
    + destruct (bold_match s) as [[[b g] r]|]; [|discriminate].
      intros [= <- <- <-]. destruct (IH b g r eq_refl) as [-> Hg].
      now split.
Qed.

Lemma inline_parts_source (fuel : nat) :
  forall lineIndex partIndex remaining,
    String.length remaining < fuel ->
    concat_all (map part_source (inline_parts fuel lineIndex partIndex remaining))
    = remaining.
Proof.
  induction fuel as [|fuel IH]; intros L p s Hf; [lia|].
  cbn [inline_parts]. destruct (String.eqb_spec s "") as [->|Hs]; [reflexivity|].
  destruct (bold_match s) as [[[b g] r]|] eqn:E.
  - apply bold_match_source in E as [Hsrc Hg].
    assert (Hr : String.length r < fuel).
    { rewrite Hsrc in Hf. rewrite !length_append in Hf. simpl in Hf. lia. }
    destruct (String.eqb_spec b "") as [->|Hb]; simpl; rewrite (IH _ _ _ Hr).
    + rewrite Hsrc. simpl. now rewrite !append_assoc.
    + rewrite Hsrc. simpl. now rewrite !append_assoc.
  - simpl. apply append_empty_r.
Qed.

Lemma inline_parts_nonempty (fuel lineIndex partIndex : nat) (remaining : string) :
  remaining <> "" ->
  inline_parts (S fuel) lineIndex partIndex remaining <> [].
Proof.
  intros Hs. cbn [inline_parts]. apply String.eqb_neq in Hs. rewrite Hs.
  destruct (bold_match remaining) as [[[b g] r]|]; [|discriminate].
  destruct (b =? ""); discriminate.
Qed.

Lemma inline_parts_keys (fuel : nat) :
  forall lineIndex partIndex remaining,
    map part_key_of (inline_parts fuel lineIndex partIndex remaining)
    = map (part_key lineIndex)
          (seq partIndex
               (List.length (inline_parts fuel lineIndex partIndex remaining))).
Proof.
  induction fuel as [|fuel IH]; intros L p s; [reflexivity|].
  cbn [inline_parts]. destruct (s =? ""); [reflexivity|].
  destruct (bold_match s) as [[[b g] r]|]; [|reflexivity].
  destruct (b =? ""); simpl; now rewrite IH.
Qed.

Lemma prefix_slice (p s : string) :
  String.prefix p s = true -> p ++ slice (String.length p) s = s.
Proof.
  revert s. induction p as [|a p IH]; intros s; [reflexivity|].
  destruct s as [|b s]; simpl; [discriminate|].
  destruct (Ascii.ascii_dec a b) as [->|]; [|discriminate].
  intros H. now rewrite (IH s H).
Qed.

Lemma render_line_renders (lineIndex : nat) (line : string) :
  renders lineIndex line (render_line lineIndex line).
Proof.
  unfold render_line, renders.
  destruct (String.prefix "## " line) eqn:E2;
    [repeat split; exact (prefix_slice "## " line E2)|].
  destruct (String.prefix "# " line) eqn:E1;
    [repeat split; exact (prefix_slice "# " line E1)|].
  cbv zeta.
  pose proof (inline_parts_source (S (String.length line)) lineIndex 0 line
                (Nat.lt_succ_diag_r _)) as Hsrc.
  destruct (String.prefix "- " line) eqn:Ei.
  - assert (Hne : line <> "") by (intros ->; discriminate).
    apply (inline_parts_nonempty (String.length line) lineIndex 0) in Hne.
    destruct (inline_parts (S (String.length line)) lineIndex 0 line);
      [now elim Hne|].
    now repeat split.
  - destruct (blank line) eqn:Eb; [now repeat split|].
    assert (Hne : line <> "") by (intros ->; discriminate).
    apply (inline_parts_nonempty (String.length line) lineIndex 0) in Hne.
    destruct (inline_parts (S (String.length line)) lineIndex 0 line);
      [now elim Hne|].
    now repeat split.
Qed.

Lemma render_lines_nth (lines : list string) :
  forall first i line,
    nth_error lines i = Some line ->
    nth_error (render_lines first lines) i = Some (render_line (first + i) line).
Proof.
  induction lines as [|l lines IH]; intros first i line; [now destruct i|].
  destruct i as [|i]; simpl.
  - intros [= ->]. now rewrite Nat.add_0_r.
  - intros H. rewrite (IH (S first) i line H). f_equal. f_equal. lia.
Qed.

Lemma render_lines_length (lines : list string) (first : nat) :
  List.length (render_lines first lines) = List.length lines.
Proof.
  revert first. induction lines as [|l lines IH]; intros first; simpl;
    [reflexivity | now rewrite IH].
Qed.

(** X16. The renderer returns nothing for the empty text and otherwise one
    element per line of the text, in order, each with the index of its line
    as key. Nothing of a line is lost but the two-star markers: a heading
    keeps what follows its prefix, a paragraph or list item is made of
    inline nodes (the bare-string fallback is never used) whose texts, with
    two stars put back around each strong node, give the line again (for a
    list item the leading dash and space included), and a spacer stands
    only for a line of white space. *)
Theorem markdown_keeps_every_line (text : string) :
  renderMarkdown "" = None
  /\ (text <> "" ->
      exists elements,
        renderMarkdown text = Some elements
        /\ List.length elements = List.length (split_lines text)
        /\ forall i line,
             nth_error (split_lines text) i = Some line ->
             exists el, nth_error elements i = Some el /\ renders i line el).
Proof.
  split; [reflexivity|]. intros Hne.
  exists (render_lines 0 (split_lines text)). unfold renderMarkdown.
  apply String.eqb_neq in Hne. rewrite Hne.
  split; [reflexivity|]. split; [apply render_lines_length|].
  intros i line Hi. exists (render_line i line).
  split; [exact (render_lines_nth _ 0 i line Hi) | apply render_line_renders].
Qed.

Lemma markdown_keeps_every_line_witness :
  exists elements,
    renderMarkdown "- a **b**" = Some elements
    /\ List.length elements = List.length (split_lines "- a **b**")
    /\ forall i line,
         nth_error (split_lines "- a **b**") i = Some line ->
         exists el, nth_error elements i = Some el /\ renders i line el.
Proof.
  apply (markdown_keeps_every_line "- a **b**"). discriminate.
Defined.

(** X17. The inline nodes of a line have the keys [L-0], [L-1], ... in
    order, where [L] is the index of the line: no two nodes of a line share
    a key. *)
Theorem inline_nodes_are_numbered (lineIndex : nat) (line : string) :
  let parts := inline_parts (S (String.length line)) lineIndex 0 line in
  map part_key_of parts
  = map (part_key lineIndex) (seq 0 (List.length parts))
  /\ NoDup (map part_key_of parts).
Proof.
  cbv zeta. split; [apply inline_parts_keys|].
  - rewrite inline_parts_keys. apply Finite.Injective_map_NoDup; [|apply seq_NoDup].
    intros a b H. unfold part_key in H.
    apply PillsFacts.split_at_dash in H as [_ H]; try apply PillsFacts.decimal_no_dash.
    now apply PillsFacts.decimal_injective.
Qed.


(** *** The match is the leftmost one, with the shortest group *)

Lemma lazy_group_found (r a : string) :
  dot_accepts r ("**" ++ a) = true ->
  exists group rest,
    lazy_group (r ++ "**" ++ a) = Some (group, rest)
    /\ String.length group <= String.length r.
Proof.
  induction r as [|c r IH]; intros Hd.
  - exists "", a. split; [reflexivity | simpl; lia].
  - cbn [dot_accepts] in Hd. apply andb_prop in Hd as [Hc Hr].
    apply negb_true_iff in Hc.
    change (String c r ++ "**" ++ a) with (String c (r ++ "**" ++ a)).
    cbn [lazy_group].
    destruct (after_stars (String c (r ++ "**" ++ a))) as [rest|].
    + exists "", rest. split; [reflexivity | simpl; lia].
    + rewrite Hc. destruct (IH Hr) as (g & rest & -> & Hl).
      exists (String c g), rest. split; [reflexivity | simpl; lia].
Qed.

Lemma match_here_found (g a : string) :
  g <> "" ->
  dot_accepts g ("**" ++ a) = true ->
  exists group rest,
    match_here ("**" ++ g ++ "**" ++ a) = Some (group, rest)
    /\ String.length group <= String.length g.
Proof.
  destruct g as [|c r]; [intros H; now elim H|]. intros _ Hd.
  cbn [dot_accepts] in Hd. apply andb_prop in Hd as [Hc Hr].
  apply negb_true_iff in Hc.
  unfold match_here.
  change (after_stars ("**" ++ String c r ++ "**" ++ a))
    with (Some (String c (r ++ "**" ++ a))).
  cbv iota beta. rewrite Hc.
  destruct (lazy_group_found r a Hr) as (g1 & rest & -> & Hl).
  exists (String c g1), rest. split; [reflexivity | simpl; lia].
Qed.

(** X18. The match the loop uses is the one of the regular expression: if a
    line holds, after some text, two stars, one or more characters that [.]
    accepts, and two stars, then a match is found; it starts no later than
    that place, and when it starts there its group is no longer than that
    run. And what is found always is two stars, a group that is not empty,
    and two stars. *)
Theorem bold_match_is_leftmost_and_lazy (b g a : string) :
  g <> "" ->
  dot_accepts g ("**" ++ a) = true ->
  exists before group rest,
    bold_match (b ++ "**" ++ g ++ "**" ++ a) = Some (before, group, rest)
    /\ before ++ "**" ++ group ++ "**" ++ rest = b ++ "**" ++ g ++ "**" ++ a
    /\ group <> ""
    /\ String.length before <= String.length b
    /\ (String.length before = String.length b ->
        String.length group <= String.length g).
Proof.
  intros Hg Hd.
  assert (H : exists before group rest,
             bold_match (b ++ "**" ++ g ++ "**" ++ a) = Some (before, group, rest)
             /\ String.length before <= String.length b
             /\ (String.length before = String.length b ->
                 String.length group <= String.length g)).
  { induction b as [|c b IH].
    - destruct (match_here_found g a Hg Hd) as (g1 & rest & Hm & Hl).
      exists "", g1, rest.
      change ("" ++ "**" ++ g ++ "**" ++ a) with ("**" ++ g ++ "**" ++ a).
      assert (Hb : bold_match ("**" ++ g ++ "**" ++ a) = Some ("", g1, rest)).
      { change ("**" ++ g ++ "**" ++ a) with (String "*" (String "*" (g ++ "**" ++ a))) in *.
        cbn [bold_match]. now rewrite Hm. }
      rewrite Hb. now repeat split.
    - change (String c b ++ "**" ++ g ++ "**" ++ a)
        with (String c (b ++ "**" ++ g ++ "**" ++ a)).
      cbn [bold_match].
      destruct (match_here (String c (b ++ "**" ++ g ++ "**" ++ a))) as [[g1 r1]|].
      + exists "", g1, r1. split; [reflexivity|]. simpl. split; [lia | discriminate].
      + destruct IH as (b' & g' & r' & -> & Hl & Hlazy).
        exists (String c b'), g', r'. split; [reflexivity|]. simpl.
        split; [lia | intros Heq; apply Hlazy; lia]. }
  destruct H as (b' & g' & r' & Hm & Hl & Hlazy).
  exists b', g', r'. destruct (bold_match_source _ _ _ _ Hm) as [Hsrc Hne].
  now repeat split.
Qed.

Lemma bold_match_is_leftmost_and_lazy_witness :
  exists before group rest,
    bold_match ("a " ++ "**" ++ "**x" ++ "**" ++ " b**") = Some (before, group, rest)
    /\ before ++ "**" ++ group ++ "**" ++ rest
       = "a " ++ "**" ++ "**x" ++ "**" ++ " b**"
    /\ group <> ""
    /\ String.length before <= String.length "a "
    /\ (String.length before = String.length "a " ->
        String.length group <= String.length "**x").
Proof.
  apply (bold_match_is_leftmost_and_lazy "a " "**x" " b**");
    [discriminate | reflexivity].
Defined.

End MarkdownFacts.

(** ** The page and the route together *)

Module PageFacts.

Lemma message_of_json (m : PageMessage) : message_of (message_json m) = forwarded m.
Proof. destruct m as [c|a]; reflexivity. Qed.

Lemma message_json_not_null (l : list PageMessage) :
  forallb (fun v => negb (is_null v)) (map message_json l) = true.
Proof. induction l as [|[c|a] l IH]; simpl; auto. Qed.

Section Round.
Variable trim : string -> string.
Variable TypeError_message : TypeFault -> string.

Lemma page_request_accepted (w : World) (st : PageState) :
  request_json w = Returns (request_body (newMessages trim st)) ->
  new_Anthropic w = Returns tt ->
  POST TypeError_message w =
  (StreamResponse 200 stream_headers (start (messages_stream w (asked trim st))),
   [asked trim st]).
Proof.
  intros Hb Hc. unfold POST, setup. rewrite Hb. cbn [bind destructure request_body field].
  simpl String.eqb. cbv iota.
  assert (Hne : exists m l, map message_json (newMessages trim st) = m :: l).
  { unfold newMessages. destruct (page_messages st); simpl; now eexists _, _. }
  destruct Hne as (m & l & Hml).
  assert (Hok : falsy (Some (JArray (map message_json (newMessages trim st))))
                || length_is_zero (Some (JArray (map message_json (newMessages trim st))))
                = false) by (simpl; now rewrite Hml).
  rewrite Hok, Hc. cbn [bind map_messages].
  rewrite (AnswersFacts.convert_no_null TypeError_message _
             (message_json_not_null _)).
  cbn [bind]. unfold asked. rewrite map_map.
  rewrite (map_ext _ _ message_of_json). reflexivity.
Qed.


(** X19. The requests of the page always pass the validation of the route:
    whatever the conversation and the input, when the route reads the body
    the page sends and can construct its client, it answers 200 with the
    event stream, and asks the provider once, with the role and the content
    of every message of the conversation in order (tool calls left out) and
    the default MCP url. *)
Theorem page_requests_are_accepted (w : World) (st : PageState) :
  request_json w = Returns (request_body (newMessages trim st)) ->
  new_Anthropic w = Returns tt ->
  POST TypeError_message w =
  (StreamResponse 200 stream_headers (start (messages_stream w (asked trim st))),
   [asked trim st]).
Proof. apply page_request_accepted. Qed.

Variable number_text : Z -> Z -> string.

Lemma concat_printable (groups : list (list DownstreamEvent)) :
  forallb event_printable (List.concat groups) = true ->
  forallb (forallb event_printable) groups = true.
Proof.
  induction groups as [|g groups IH]; [reflexivity|].
  simpl. rewrite forallb_app. intros H. apply andb_prop in H as [Hg Hgs].
  now rewrite Hg, IH.
Qed.

Lemma submit_reads (w : World) (st : PageState) (groups : list (list DownstreamEvent)) :
  trim (page_input st) <> "" ->
  isLoading st = false ->
  request_json w = Returns (request_body (newMessages trim st)) ->
  new_Anthropic w = Returns tt ->
  List.concat groups = enqueued (start (messages_stream w (asked trim st))) ->
  forallb event_printable (List.concat groups) = true ->
  handleSubmit trim st
    (fetched_of (fst (POST TypeError_message w))
       (map (body_bytes number_text) groups))
  = {| page_messages :=
         (newMessages trim st
          ++ [assistant_message
                (shown (project
                          (enqueued (start (messages_stream w (asked trim st))))))])%list;
       page_input := "";
       isLoading := false |}.
Proof.
  intros Ht Hl Hb Hc Hg Hp.
  rewrite (page_request_accepted w st Hb Hc).
  unfold handleSubmit, fetched_of. apply String.eqb_neq in Ht.
  rewrite Ht, Hl. simpl. unfold read_all.
  rewrite (WireFacts.decode_bodies number_text groups (concat_printable groups Hp)).
  now rewrite Hg.
Qed.

(** X20. One round of the conversation, end to end. The input is not blank
    and the page is not loading; the route reads the page's request and
    constructs its client; the provider yields the events [evs] and ends;
    the frames of the response reach the page in reads of whole frames, and
    the tool inputs hold no number and no key twice. Then [handleSubmit]
    leaves the conversation extended by the trimmed input as user message
    and by one assistant message, whose text is the concatenation of the
    provider's text fragments and whose tool calls are those of the frames;
    the input is cleared and loading is off. *)
Theorem a_round_shows_the_provider_text
        (w : World) (st : PageState) (evs : list RawEvent)
        (groups : list (list DownstreamEvent)) :
  trim (page_input st) <> "" ->
  isLoading st = false ->
  request_json w = Returns (request_body (newMessages trim st)) ->
  new_Anthropic w = Returns tt ->
  messages_stream w (asked trim st) = {| events := evs; ending := Exhausted |} ->
  List.concat groups = translate evs ->
  forallb event_printable (translate evs) = true ->
  handleSubmit trim st
    (fetched_of (fst (POST TypeError_message w))
       (map (body_bytes number_text) groups))
  = {| page_messages :=
         (page_messages st
          ++ [user_message (trim (page_input st));
              assistant_message
                {| content := concat_all (text_fragments evs);
                   toolCalls := Some (currentToolCalls (project (translate evs))) |}])%list;
       page_input := "";
       isLoading := false |}.
Proof.
  intros Ht Hl Hb Hc Hs Hg Hp.
  assert (He : enqueued (start (messages_stream w (asked trim st))) = translate evs)
    by (now rewrite Hs).
  rewrite (submit_reads w st groups Ht Hl Hb Hc); [|now rewrite He|now rewrite Hg].
  rewrite He. unfold newMessages. rewrite <- app_assoc. simpl.
  rewrite EntriesFacts.project_shown by apply TranslatorFacts.run_no_error.
  unfold translate at 1. rewrite TranslatorFacts.run_text_contents.
  now rewrite concat_all_nonempty.
Qed.

(** X21. When instead the provider's stream throws after the events [evs],
    all else as before, [handleSubmit] leaves as assistant message the text
    [Error: ] followed by the message of the error ([Unknown error] for a
    thrown value that is no [Error]), with no tool calls: the text streamed
    before is no longer shown. *)
Theorem a_failed_stream_shows_the_error
        (w : World) (st : PageState) (evs : list RawEvent) (e : Thrown)
        (groups : list (list DownstreamEvent)) :
  trim (page_input st) <> "" ->
  isLoading st = false ->
  request_json w = Returns (request_body (newMessages trim st)) ->
  new_Anthropic w = Returns tt ->
  messages_stream w (asked trim st) = {| events := evs; ending := Throws e |} ->
  List.concat groups = (translate evs ++ [error (error_text e)])%list ->
  forallb event_printable (translate evs) = true ->
  handleSubmit trim st
    (fetched_of (fst (POST TypeError_message w))
       (map (body_bytes number_text) groups))
  = {| page_messages :=
         (page_messages st
          ++ [user_message (trim (page_input st));
              assistant_message
                {| content := "Error: " ++ error_text e; toolCalls := None |}])%list;
       page_input := "";
       isLoading := false |}.
Proof.
  intros Ht Hl Hb Hc Hs Hg Hp.
  assert (He : enqueued (start (messages_stream w (asked trim st)))
               = (translate evs ++ [error (error_text e)])%list)
    by (now rewrite Hs).
  rewrite (submit_reads w st groups Ht Hl Hb Hc);
    [|now rewrite He|rewrite Hg, forallb_app, Hp; reflexivity].
  rewrite He, ClientFacts.project_snoc. unfold newMessages.
  now rewrite <- app_assoc.
Qed.

End Round.


Lemma page_requests_are_accepted_witness :
  POST (fun _ => "TypeError") (hello_world Exhausted) =
  (StreamResponse 200 stream_headers
     (start (messages_stream (hello_world Exhausted) (asked (fun s => s) hello_state))),
   [asked (fun s => s) hello_state]).
Proof.
  apply (page_requests_are_accepted (fun s => s) (fun _ => "TypeError")
           (hello_world Exhausted) hello_state); reflexivity.
Defined.

Lemma a_round_shows_the_provider_text_witness :
  handleSubmit (fun s => s) hello_state
    (fetched_of (fst (POST (fun _ => "TypeError") (hello_world Exhausted)))
       (map (body_bytes (fun _ _ => "")) [[text "Hi"]]))
  = {| page_messages :=
         [user_message "hello";
          assistant_message {| content := "Hi"; toolCalls := Some [] |}];
       page_input := "";
       isLoading := false |}.
Proof.
  apply (a_round_shows_the_provider_text (fun s => s) (fun _ => "TypeError")
           (fun _ _ => "") (hello_world Exhausted) hello_state
           [content_block_delta
              {| delta_type := "text_delta"; delta_text := Some "Hi";
                 delta_partial_json := None |}]
           [[text "Hi"]]); try reflexivity. discriminate.
Defined.

Lemma a_failed_stream_shows_the_error_witness :
  handleSubmit (fun s => s) hello_state
    (fetched_of (fst (POST (fun _ => "TypeError")
                        (hello_world (Throws (ErrorInstance "overloaded")))))
       (map (body_bytes (fun _ _ => "")) [[text "Hi"]; [error "overloaded"]]))
  = {| page_messages :=
         [user_message "hello";
          assistant_message {| content := "Error: overloaded"; toolCalls := None |}];
       page_input := "";
       isLoading := false |}.
Proof.
  apply (a_failed_stream_shows_the_error (fun s => s) (fun _ => "TypeError")
           (fun _ _ => "") (hello_world (Throws (ErrorInstance "overloaded")))
           hello_state
           [content_block_delta
              {| delta_type := "text_delta"; delta_text := Some "Hi";
                 delta_partial_json := None |}]
           (ErrorInstance "overloaded")
           [[text "Hi"]; [error "overloaded"]]); try reflexivity. discriminate.
Defined.

End PageFacts.

(** ** The frames as bytes *)

Module DecoderFacts.

Lemma utf8_ascii (c : ascii) (r : string) :
  (nat_of_ascii c <=? 127)%nat = true -> utf8 (String c r) = utf8 r.
Proof. intros H. cbn [utf8]. cbv zeta. now rewrite H. Qed.

Lemma in_range_high (r : Range) (b : nat) :
  in_range r b = true -> (b <=? 127)%nat = false.
Proof.
  intros H. apply Nat.leb_gt.
  destruct r; cbn [in_range] in H; apply andb_prop in H as [H _];
    apply Nat.leb_le in H; lia.
Qed.

Lemma utf8_app (a b : string) :
  utf8 a = true -> utf8 b = true -> utf8 (a ++ b) = true.
Proof.
  intros Ha Hb. remember (String.length a) as n eqn:Hn.
  assert (Hlen : String.length a <= n) by lia. clear Hn.
  revert a Ha Hlen. induction n as [|n IH]; intros a Ha Hlen.
  - destruct a; [exact Hb|]. simpl in Hlen. lia.
  - destruct a as [|c0 r0]; [exact Hb|].
    cbn [utf8] in Ha. cbv zeta in Ha. cbn [append utf8]. cbv zeta.
    cbn [String.length] in Hlen.
    destruct (nat_of_ascii c0 <=? 127)%nat.
    { apply IH; [exact Ha | lia]. }
    destruct ((194 <=? nat_of_ascii c0)%nat && (nat_of_ascii c0 <=? 223)%nat).
    { destruct r0 as [|c1 r1]; [discriminate|].
      apply andb_prop in Ha as [H1 Ha]. cbn [append]. rewrite H1.
      apply IH; [exact Ha | cbn [String.length] in Hlen; lia]. }
    destruct ((224 <=? nat_of_ascii c0)%nat && (nat_of_ascii c0 <=? 239)%nat).
    { destruct r0 as [|c1 [|c2 r2]]; try discriminate.
      apply andb_prop in Ha as [H12 Ha]. cbn [append]. rewrite H12.
      apply IH; [exact Ha | cbn [String.length] in Hlen; lia]. }
    destruct ((240 <=? nat_of_ascii c0)%nat && (nat_of_ascii c0 <=? 244)%nat);
      [|discriminate].
    destruct r0 as [|c1 [|c2 [|c3 r3]]]; try discriminate.
    apply andb_prop in Ha as [H123 Ha]. cbn [append]. rewrite H123.
    apply IH; [exact Ha | cbn [String.length] in Hlen; lia].
Qed.

(** What [JSON.stringify] writes for an ASCII character is ASCII; any other
    byte is written as it is. *)
Lemma escape_char_ascii (c : ascii) (r : string) :
  (nat_of_ascii c <=? 127)%nat = true -> utf8 (escape_char c ++ r) = utf8 r.
Proof.
  destruct c as [[] [] [] [] [] [] [] []]; intros H;
    first [discriminate H | reflexivity].
Qed.

Lemma escape_char_high (c : ascii) :
  (nat_of_ascii c <=? 127)%nat = false -> escape_char c = String c EmptyString.
Proof.
  destruct c as [[] [] [] [] [] [] [] []]; intros H;
    first [discriminate H | reflexivity].
Qed.

Lemma escape_cons_high (c : ascii) (r : string) :
  (nat_of_ascii c <=? 127)%nat = false -> escape (String c r) = String c (escape r).
Proof. intros H. cbn [escape]. now rewrite (escape_char_high c H). Qed.

Lemma escape_utf8 (s : string) : utf8 s = true -> utf8 (escape s) = true.
Proof.
  remember (String.length s) as n eqn:Hn.
  assert (Hlen : String.length s <= n) by lia. clear Hn.
  revert s Hlen. induction n as [|n IH]; intros s Hlen Hs.
  - destruct s; [reflexivity|]. simpl in Hlen. lia.
  - destruct s as [|c0 r0]; [reflexivity|].
    cbn [String.length] in Hlen.
    destruct (nat_of_ascii c0 <=? 127)%nat eqn:E0.
    { rewrite (utf8_ascii c0 r0 E0) in Hs. cbn [escape].
      rewrite (escape_char_ascii c0 _ E0). apply IH; [lia | exact Hs]. }
    rewrite (escape_cons_high c0 r0 E0).
    cbn [utf8] in Hs. cbv zeta in Hs. rewrite E0 in Hs.
    cbn [utf8]. cbv zeta. rewrite E0.
    destruct ((194 <=? nat_of_ascii c0)%nat && (nat_of_ascii c0 <=? 223)%nat).
    { destruct r0 as [|c1 r1]; [discriminate|].
      apply andb_prop in Hs as [H1 Hs].
      rewrite (escape_cons_high c1 r1 (in_range_high _ _ H1)), H1.
      apply IH; [cbn [String.length] in Hlen; lia | exact Hs]. }
    destruct ((224 <=? nat_of_ascii c0)%nat && (nat_of_ascii c0 <=? 239)%nat).
    { destruct r0 as [|c1 [|c2 r2]]; try discriminate.
      apply andb_prop in Hs as [H12 Hs]. apply andb_prop in H12 as [H1 H2].
      rewrite (escape_cons_high c1 _ (in_range_high _ _ H1)),
        (escape_cons_high c2 _ (in_range_high _ _ H2)), H1, H2.
      apply IH; [cbn [String.length] in Hlen; lia | exact Hs]. }
    destruct ((240 <=? nat_of_ascii c0)%nat && (nat_of_ascii c0 <=? 244)%nat);
      [|discriminate].
    destruct r0 as [|c1 [|c2 [|c3 r3]]]; try discriminate.
    apply andb_prop in Hs as [H123 Hs]. apply andb_prop in H123 as [H12 H3].
    apply andb_prop in H12 as [H1 H2].
    rewrite (escape_cons_high c1 _ (in_range_high _ _ H1)),
      (escape_cons_high c2 _ (in_range_high _ _ H2)),
      (escape_cons_high c3 _ (in_range_high _ _ H3)), H1, H2, H3.
    apply IH; [cbn [String.length] in Hlen; lia | exact Hs].
Qed.

Lemma quote_string_utf8 (s : string) : utf8 s = true -> utf8 (quote_string s) = true.
Proof.
  intros Hs. unfold quote_string. rewrite utf8_ascii by reflexivity.
  apply utf8_app; [now apply escape_utf8 | reflexivity].
Qed.

Lemma forallb_and {A : Type} (p q : A -> bool) (l : list A) :
  forallb (fun a => p a && q a) l = true -> forallb p l = true.
Proof.
  induction l as [|a l IH]; [reflexivity|]. cbn [forallb]. intros H.
  apply andb_prop in H as [Ha Hl]. apply andb_prop in Ha as [Ha _].
  now rewrite Ha, IH.
Qed.

(** The loop on the bytes of the reads is the loop on their texts. *)
Lemma decode_frames_decoded (values : list string) :
  decode_frames values = decode_events (map TextDecoder_decode values).
Proof.
  unfold decode_frames, decode_events, decode_values, decode_reads. do 2 f_equal.
  induction values as [|value values IH]; [reflexivity|].
  cbn [flat_map map]. now rewrite IH.
Qed.

Section Values.
Variable number_text : Z -> Z -> string.

Local Abbreviation text_of := (JSON_stringify number_text).

Lemma items_text_utf8 (items : list JSON) :
  Forall (fun x => utf8 (text_of x) = true) items ->
  utf8 (items_text number_text items) = true.
Proof.
  induction 1 as [|x items Hx _ IH]; [reflexivity|].
  rewrite WireFacts.items_text_cons. apply utf8_app; [exact Hx|].
  destruct items; [reflexivity|]. apply (utf8_app ","); [reflexivity | exact IH].
Qed.

Lemma members_text_utf8 (fs : list (string * JSON)) :
  Forall (fun kv => utf8 (fst kv) = true /\ utf8 (text_of (snd kv)) = true) fs ->
  utf8 (members_text number_text fs) = true.
Proof.
  induction 1 as [|[k x] fs [Hk Hx] _ IH]; [reflexivity|].
  rewrite WireFacts.members_text_cons.
  apply utf8_app; [now apply quote_string_utf8|].
  apply (utf8_app ":"); [reflexivity|]. apply utf8_app; [exact Hx|].
  destruct fs; [reflexivity|]. apply (utf8_app ","); [reflexivity | exact IH].
Qed.

(** The text of a value is well-formed when its strings are, numbers left
    aside. *)
Lemma text_utf8 (v : JSON) :
  printable v = true -> utf8_value v = true -> utf8 (text_of v) = true.
Proof.
  induction v as [|b|m e|s|items IH|fs IH] using JSON_induction; intros Hp Hu.
  - reflexivity.
  - now destruct b.
  - discriminate.
  - now apply quote_string_utf8.
  - rewrite WireFacts.stringify_array. apply (utf8_app "["); [reflexivity|].
    apply utf8_app; [|reflexivity]. apply items_text_utf8.
    cbn [printable utf8_value] in Hp, Hu.
    rewrite Forall_forall in *. rewrite forallb_forall in Hp, Hu. auto.
  - rewrite WireFacts.stringify_object. apply (utf8_app "{"); [reflexivity|].
    apply utf8_app; [|reflexivity]. apply members_text_utf8.
    cbn [printable utf8_value] in Hp, Hu. apply andb_prop in Hp as [_ Hp].
    rewrite Forall_forall in *. rewrite forallb_forall in Hp, Hu.
    intros kv Hin. specialize (Hu kv Hin). apply andb_prop in Hu as [Hk Hv].
    split; [exact Hk|]. now apply IH; [|apply Hp|].
Qed.

Lemma utf8_value_object (k : string) (v : JSON) (fs : list (string * JSON)) :
  utf8 k = true -> utf8_value v = true -> utf8_value (JObject fs) = true ->
  utf8_value (JObject ((k, v) :: fs)) = true.
Proof.
  intros Hk Hv Hfs. cbn [utf8_value forallb fst snd]. rewrite Hk, Hv. exact Hfs.
Qed.

Lemma payload_utf8 (ev : DownstreamEvent) :
  event_printable ev = true -> event_utf8 ev = true ->
  printable (payload ev) = true /\ utf8_value (payload ev) = true.
Proof.
  intros Hp Hu. split; [now apply WireFacts.payload_printable|].
  destruct ev as [c|name id|name id input| |message]; unfold payload, event_utf8 in *;
    repeat match goal with
           | H : _ && _ = true |- _ => apply andb_prop in H as [? ?]
           end;
    repeat (apply utf8_value_object; [reflexivity || assumption | assumption || reflexivity |]);
    reflexivity.
Qed.

Lemma encode_utf8 (ev : DownstreamEvent) :
  event_printable ev = true -> event_utf8 ev = true ->
  utf8 (encode number_text ev) = true.
Proof.
  intros Hp Hu. destruct (payload_utf8 ev Hp Hu) as [Hpp Hpu].
  unfold encode, frame. apply (utf8_app "data: "); [reflexivity|].
  apply utf8_app; [now apply text_utf8 | reflexivity].
Qed.

Lemma body_bytes_utf8 (out : list DownstreamEvent) :
  forallb (fun ev => event_printable ev && event_utf8 ev) out = true ->
  utf8 (body_bytes number_text out) = true.
Proof.
  induction out as [|ev out IH]; [reflexivity|].
  cbn [forallb]. intros H. apply andb_prop in H as [Hev Hout].
  apply andb_prop in Hev as [Hp Hu].
  change (body_bytes number_text (ev :: out))
    with (encode number_text ev ++ body_bytes number_text out).
  apply utf8_app; [now apply encode_utf8 | now apply IH].
Qed.

(** X22. The frames of the route through the decoder of the page: when the
    events of a response are written as frames, with strings that are
    well-formed UTF-8 and tool inputs that hold no number and no key twice,
    and the bytes reach the loop in reads that each hold whole frames, then
    [decoder.decode] returns for every read the text that was written, and
    the loop decodes exactly those events, in order. *)
Theorem frames_are_read_back_from_their_bytes (groups : list (list DownstreamEvent)) :
  forallb (forallb (fun ev => event_printable ev && event_utf8 ev)) groups = true ->
  map TextDecoder_decode (map (body_bytes number_text) groups)
  = map (body_bytes number_text) groups
  /\ decode_frames (map (body_bytes number_text) groups) = List.concat groups.
Proof.
  intros H.
  assert (Ht : map TextDecoder_decode (map (body_bytes number_text) groups)
               = map (body_bytes number_text) groups).
  { induction groups as [|out groups IH]; [reflexivity|].
    cbn [forallb] in H. apply andb_prop in H as [Hout Hgroups].
    cbn [map]. rewrite (IH Hgroups). f_equal.
    apply ClientFacts.TextDecoder_decode_utf8;
      [now apply body_bytes_utf8 | apply ClientFacts.body_bytes_no_BOM]. }
  split; [exact Ht|].
  rewrite decode_frames_decoded, Ht. apply WireFacts.decode_bodies.
  clear Ht. induction groups as [|out groups IH]; [reflexivity|].
  cbn [forallb] in *. apply andb_prop in H as [Hout Hgroups].
  now rewrite (forallb_and _ _ _ Hout), IH.
Qed.

End Values.

Lemma frames_are_read_back_from_their_bytes_witness :
  let groups :=
    [[text (bytes [99; 97; 102; 195; 169])];
     [tool_complete "search" "t1" (JObject [("q", JString (bytes [226; 130; 172]))]);
      done]] in
  decode_frames (map (body_bytes (fun _ _ => "")) groups) = List.concat groups.
Proof.
  intros groups.
  exact (proj2 (frames_are_read_back_from_their_bytes (fun _ _ => "") groups eq_refl)).
Defined.

End DecoderFacts.
